(** * dlfx: weighted effect estimators, balance diagnostics and meta-analysis

    A shallow embedding of [src/dlfx/effects.py], [src/dlfx/balance.py] and
    [src/dlfx/meta.py], and the properties of these routines that the
    specification states.

    Numbers.  A Python/NumPy double is modelled by [float]: a rational for
    every finite value, and the three special values of IEEE 754.  The
    arithmetic on finite values is exact: rounding, overflow, underflow and
    the sign of zero are not modelled.  Division comes in two flavours, as in
    the source: [npdiv] is NumPy's (division by zero yields an infinity or a
    NaN) and [pydiv] is the one of Python's built-in [float] (division by zero
    raises [ZeroDivisionError]).  The transcendental functions of NumPy
    ([np.sqrt], [np.exp], [np.log]) and the bit generator behind
    [np.random.default_rng] are parameters of the sections that use them.  A
    horizon is a finite number. *)

From Stdlib Require Import QArith Qminmax Qabs Qround ZArith List Bool Lia Lqa String.
From Stdlib Require Import Permutation Sorted.
Import ListNotations.

Set Implicit Arguments.

(* ------------------------------------------------------------------------- *)
(** ** Doubles *)

Module Float.

Inductive float : Type :=
| Fin (q : Q)
| PInf
| NInf
| NaN.

Definition Qltb (a b : Q) : bool := negb (Qle_bool b a).

Definition zero : float := Fin 0.
Definition one : float := Fin 1.

Definition isfinite (x : float) : bool :=
  match x with Fin _ => true | _ => false end.

Definition isnan (x : float) : bool :=
  match x with NaN => true | _ => false end.

(** [pd.notna] on a numeric cell. *)
Definition notna (x : float) : bool := negb (isnan x).

Definition fopp (x : float) : float :=
  match x with
  | Fin a => Fin (- a)
  | PInf => NInf
  | NInf => PInf
  | NaN => NaN
  end.

Definition fadd (x y : float) : float :=
  match x, y with
  | NaN, _ | _, NaN => NaN
  | Fin a, Fin b => Fin (a + b)
  | PInf, NInf | NInf, PInf => NaN
  | PInf, _ | _, PInf => PInf
  | NInf, _ | _, NInf => NInf
  end.

Definition fsub (x y : float) : float := fadd x (fopp y).

(** The infinity of the sign of [a], NaN at zero. *)
Definition inf_of_sign (a : Q) (pos : float) (neg : float) : float :=
  if Qltb 0 a then pos else if Qltb a 0 then neg else NaN.

Definition fmul (x y : float) : float :=
  match x, y with
  | NaN, _ | _, NaN => NaN
  | Fin a, Fin b => Fin (a * b)
  | Fin a, PInf | PInf, Fin a => inf_of_sign a PInf NInf
  | Fin a, NInf | NInf, Fin a => inf_of_sign a NInf PInf
  | PInf, PInf | NInf, NInf => PInf
  | PInf, NInf | NInf, PInf => NInf
  end.

(** NumPy's true division: a zero divisor gives an infinity, or NaN for 0/0. *)
Definition npdiv (x y : float) : float :=
  match x, y with
  | NaN, _ | _, NaN => NaN
  | Fin a, Fin b =>
      if Qeq_bool b 0 then inf_of_sign a PInf NInf else Fin (a / b)
  | Fin _, PInf | Fin _, NInf => Fin 0
  | PInf, Fin b => if Qltb b 0 then NInf else PInf
  | NInf, Fin b => if Qltb b 0 then PInf else NInf
  | _, _ => NaN
  end.

(** Comparisons; every comparison with NaN is false. *)
Definition fltb (x y : float) : bool :=
  match x, y with
  | NaN, _ | _, NaN => false
  | Fin a, Fin b => Qltb a b
  | _, NInf => false
  | NInf, _ => true
  | PInf, _ => false
  | _, PInf => true
  end.

Definition feqb (x y : float) : bool :=
  match x, y with
  | Fin a, Fin b => Qeq_bool a b
  | PInf, PInf | NInf, NInf => true
  | _, _ => false
  end.

Definition fleb (x y : float) : bool := fltb x y || feqb x y.
Definition fgtb (x y : float) : bool := fltb y x.

(** [np.minimum] propagates NaN. *)
Definition npminimum (x y : float) : float :=
  match x, y with
  | NaN, _ | _, NaN => NaN
  | _, _ => if fltb y x then y else x
  end.

(** Python's built-in [max(a, b)]: [b] replaces [a] only when [b > a]. *)
Definition pymax (a b : float) : float := if fgtb b a then b else a.

Definition fabs (x : float) : float :=
  match x with
  | Fin a => Fin (Qabs a)
  | PInf | NInf => PInf
  | NaN => NaN
  end.

(** [np.sum]: the empty sum is [0.0]. *)
Definition npsum (l : list float) : float := fold_right fadd zero l.

(** Same value: equal as numbers, NaN only with NaN. *)
Definition same (x y : float) : Prop :=
  match x, y with
  | Fin a, Fin b => a == b
  | PInf, PInf | NInf, NInf | NaN, NaN => True
  | _, _ => False
  end.

Definition of_Z (z : Z) : float := Fin (inject_Z z).

Definition c_1e_24 : float := Fin (1 # 1000000000000000000000000).
Definition c_1e_10 : float := Fin (1 # 10000000000).
Definition c_1_96 : float := Fin (196 # 100).
Definition c_2 : float := Fin 2.

End Float.
Import Float.

(* ------------------------------------------------------------------------- *)
(** ** Exceptions *)

Module Py.

Inductive pyerr : Type :=
| ValueError (msg : string)
| ZeroDivisionError
| IndexError.

Definition exc (A : Type) : Type := (pyerr + A)%type.

Definition ret {A} (a : A) : exc A := inr a.
Definition raise {A} (e : pyerr) : exc A := inl e.
Definition bind {A B} (m : exc A) (k : A -> exc B) : exc B :=
  match m with
  | inl e => inl e
  | inr a => k a
  end.

(** Division of two built-in [float]s. *)
Definition pydiv (x y : float) : exc float :=
  if feqb y zero then raise ZeroDivisionError else ret (npdiv x y).

End Py.
Import Py.

Declare Scope py_scope.
Delimit Scope py_scope with py.
Notation "x <- m ;; k" := (bind m (fun x => k))
  (at level 61, m at next level, right associativity) : py_scope.
Open Scope py_scope.

(* ------------------------------------------------------------------------- *)
(** ** Arrays and frames *)

Module Np.

Definition Qsum (l : list Q) : Q := fold_right Qplus 0 l.

(** [np.cumsum]. *)
Fixpoint cumsum_from (acc : Q) (l : list Q) : list Q :=
  match l with
  | [] => []
  | x :: l' => (acc + x) :: cumsum_from (acc + x) l'
  end.

Definition cumsum (l : list Q) : list Q := cumsum_from 0 l.

(** Python's [max(a, b)] on finite values. *)
Definition pymaxQ (a b : Q) : Q := if Qltb a b then b else a.

Section ByKey.
Variable A : Type.
Variable key : A -> Q.

(** Stable sort by [key], ascending ([sort_values], [argsort(kind="mergesort")]). *)
Fixpoint insert_asc (x : A) (l : list A) : list A :=
  match l with
  | [] => [x]
  | y :: l' => if Qle_bool (key x) (key y) then x :: l else y :: insert_asc x l'
  end.

Fixpoint sort_asc (l : list A) : list A :=
  match l with
  | [] => []
  | x :: l' => insert_asc x (sort_asc l')
  end.

(** Stable sort by [key], descending ([sort_values(ascending=False)]). *)
Fixpoint insert_desc (x : A) (l : list A) : list A :=
  match l with
  | [] => [x]
  | y :: l' => if Qle_bool (key y) (key x) then x :: l else y :: insert_desc x l'
  end.

Fixpoint sort_desc (l : list A) : list A :=
  match l with
  | [] => []
  | x :: l' => insert_desc x (sort_desc l')
  end.

(** The runs of equal keys of a sorted array: what [np.unique(t,
    return_index=True)] delimits and [np.add.reduceat] sums over; also the
    groups of [groupby] on a frame sorted by the key. *)
Fixpoint runs (l : list A) : list (Q * list A) :=
  match l with
  | [] => []
  | x :: l' =>
      match runs l' with
      | (k, members) :: gs =>
          if Qeq_bool (key x) k then (key x, x :: members) :: gs
          else (key x, [x]) :: (k, members) :: gs
      | [] => [(key x, [x])]
      end
  end.

Definition groupby (l : list A) : list (Q * list A) := runs (sort_asc l).
End ByKey.

(** [np.quantile(a, q)] (linear interpolation) of a non-empty list. *)
Definition quantile (a : list Q) (q : Q) : Q :=
  let s := sort_asc (fun x => x) a in
  let pos := q * inject_Z (Z.of_nat (List.length s) - 1) in
  let lo := Z.to_nat (Qfloor pos) in
  let hi := Nat.min (S lo) (List.length s - 1) in
  let frac := pos - inject_Z (Qfloor pos) in
  nth lo s 0 + (nth hi s 0 - nth lo s 0) * frac.

(** [np.flatnonzero]. *)
Fixpoint flatnonzero_from (i : nat) (mask : list bool) : list nat :=
  match mask with
  | [] => []
  | b :: m' => (if b then [i] else []) ++ flatnonzero_from (S i) m'
  end.

Definition flatnonzero (mask : list bool) : list nat := flatnonzero_from 0 mask.

(** Indexing with an integer array, [a[idx]]; out of range raises. *)
Fixpoint take (A : Type) (a : list A) (idx : list nat) : exc (list A) :=
  match idx with
  | [] => ret []
  | i :: idx' =>
      match nth_error a i with
      | None => raise IndexError
      | Some x => xs <- take a idx' ;; ret (x :: xs)
      end
  end.

End Np.
Import Np.

(* ------------------------------------------------------------------------- *)
(** ** effects.py *)

Module Effects.

(** NumPy's elementary functions, as used by the source. *)
Record libm : Type := {
  np_sqrt : float -> float;
  np_exp : float -> float;
  np_log : float -> float
}.

Record RiskEstimate : Type := {
  risk_treated : float;
  risk_control : float;
  rd : float;
  rr : float;
  rd_ci95 : option (float * float);
  rr_ci95 : option (float * float)
}.

Definition _kish_effective_n (w : list float) : exc float :=
  let s1 := npsum w in
  let s2 := npsum (map (fun x => fmul x x) w) in
  if feqb s2 zero then ret zero
  else pydiv (fmul s1 s1) s2.






(** *** fit_weighted_cox *)

Record CoxEstimate : Type := { hr : float; hr_ci95 : float * float }.

(** A row of the input frame; [None] is a missing cell. *)
Record cox_row : Type := {
  c_duration : option Q;
  c_event : option Z;
  c_weight : option Q;
  c_treat : option Z
}.

(** A row after [dropna] and the conversions to arrays. *)
Record cox_obs : Type := { o_time : Q; o_event : Z; o_w : Q; o_x : Z }.

Definition cox_dropna (df : list cox_row) : list cox_obs :=
  flat_map (fun r =>
    match c_duration r, c_event r, c_weight r, c_treat r with
    | Some t, Some e, Some w, Some x =>
        [{| o_time := Qmax t (1 # 1000000000000); o_event := e; o_w := w; o_x := x |}]
    | _, _, _, _ => []
    end) df.

Definition is_binary (x : Z) : bool := Z.eqb x 0 || Z.eqb x 1.

Definition indic (b : bool) : Q := if b then 1 else 0.

Record cox_group : Type := {
  g_time : Q;
  w_risk1 : Q; w_risk0 : Q;
  w_event1 : Q; w_event0 : Q
}.

Definition cox_sum_group (g : Q * list cox_obs) : cox_group :=
  let (t, rows) := g in
  {| g_time := t;
     w_risk1 := Qsum (map (fun o => o_w o * indic (Z.eqb (o_x o) 1)) rows);
     w_risk0 := Qsum (map (fun o => o_w o * indic (Z.eqb (o_x o) 0)) rows);
     w_event1 := Qsum (map (fun o => o_w o * indic (Z.eqb (o_x o) 1 && Z.eqb (o_event o) 1)) rows);
     w_event0 := Qsum (map (fun o => o_w o * indic (Z.eqb (o_x o) 0 && Z.eqb (o_event o) 1)) rows) |}.

(** [by_time]: the per-time sums, largest time first. *)
Definition cox_by_time (df0 : list cox_obs) : list cox_group :=
  sort_desc g_time (map cox_sum_group (groupby o_time df0)).

(** A row of [by_time] with its cumulative risk-set weights. *)
Record cox_time : Type := {
  ct_time : Q; ct_R1 : Q; ct_R0 : Q; ct_d1 : Q; ct_d0 : Q; ct_d : Q
}.

Fixpoint zip3 (A B C : Type) (a : list A) (b : list B) (c : list C) : list (A * B * C) :=
  match a, b, c with
  | x :: a', y :: b', z :: c' => (x, y, z) :: zip3 a' b' c'
  | _, _, _ => []
  end.

Definition cox_risk_sets (by_time : list cox_group) : list cox_time :=
  map (fun '(g, R1, R0) =>
         {| ct_time := g_time g; ct_R1 := R1; ct_R0 := R0;
            ct_d1 := w_event1 g; ct_d0 := w_event0 g;
            ct_d := w_event1 g + w_event0 g |})
      (zip3 by_time (cumsum (map w_risk1 by_time)) (cumsum (map w_risk0 by_time))).

Definition cox_event_times (by_time : list cox_group) : list cox_time :=
  filter (fun r => Qltb 0 (ct_d r)) (cox_risk_sets by_time).

(** [r1 * eb + r0], per event time. *)
Definition cox_denom (eb : float) (r : cox_time) : float :=
  fadd (fmul (Fin (ct_R1 r)) eb) (Fin (ct_R0 r)).

(** [sum(d * (r1 * eb * r0) / denom**2)]. *)
Definition cox_information (eb : float) (ets : list cox_time) : float :=
  npsum (map (fun r =>
    npdiv (fmul (Fin (ct_d r)) (fmul (fmul (Fin (ct_R1 r)) eb) (Fin (ct_R0 r))))
          (fmul (cox_denom eb r) (cox_denom eb r))) ets).

(** [sum(d1 - d * (r1 * eb / denom))]. *)
Definition cox_score (eb : float) (ets : list cox_time) : float :=
  npsum (map (fun r =>
    fsub (Fin (ct_d1 r))
         (fmul (Fin (ct_d r)) (npdiv (fmul (Fin (ct_R1 r)) eb) (cox_denom eb r)))) ets).

(** The Newton-Raphson loop, [n] iterations left. *)
Fixpoint cox_newton (M : libm) (ets : list cox_time) (n : nat) (beta : float) : exc float :=
  match n with
  | O => ret beta
  | S n' =>
      let eb := np_exp M beta in
      let u := cox_score eb ets in
      let h := fopp (cox_information eb ets) in
      step <- pydiv u h ;;
      let beta_new := fsub beta step in
      if fltb (fabs (fsub beta_new beta)) c_1e_10 then ret beta_new
      else cox_newton M ets n' beta_new
  end.

(** [ev["time"].map(ex_map)]: NaN where the time is not a key. *)
Definition ex_map_get (m : list (Q * float)) (t : Q) : float :=
  match find (fun kv => Qeq_bool (fst kv) t) (rev m) with
  | Some (_, v) => v
  | None => NaN
  end.

Definition fit_weighted_cox (M : libm) (treatment_indicator_col : string)
    (df : list cox_row) : exc CoxEstimate :=
  let work := cox_dropna df in
  if negb (forallb (fun o => is_binary (o_x o)) work)
  then raise (ValueError (treatment_indicator_col ++ " must be 0/1 for Cox fit."))
  else
    let df0 := sort_desc o_time work in
    let by_time := cox_by_time df0 in
    let event_times := cox_event_times by_time in
    match event_times with
    | [] => raise (ValueError "No events present for Cox fit.")
    | _ =>
        beta <- cox_newton M event_times 60 zero ;;
        let eb := np_exp M beta in
        let ex_map := map (fun r =>
          (ct_time r, npdiv (fmul (Fin (ct_R1 r)) eb) (cox_denom eb r))) event_times in
        let ev := filter (fun o => Z.eqb (o_event o) 1) df0 in
        let score_i := map (fun o =>
          fmul (Fin (o_w o)) (fsub (of_Z (o_x o)) (ex_map_get ex_map (o_time o)))) ev in
        let i_obs := cox_information eb event_times in
        let meat := npsum (map (fun s => fmul s s) score_i) in
        var_robust <- (if fgtb i_obs zero then pydiv meat (fmul i_obs i_obs) else ret NaN) ;;
        let se := np_sqrt M (pymax var_robust c_1e_24) in
        ret {| hr := np_exp M beta;
               hr_ci95 := (np_exp M (fsub beta (fmul c_1_96 se)),
                           np_exp M (fadd beta (fmul c_1_96 se))) |}
    end.

(** *** weighted_km_risk_at *)

(** A row of the input frame; [None] is a missing cell. *)
Record km_row : Type := {
  k_duration : option Q;
  k_event : option Z;
  k_weight : option Q
}.

Record km_obs : Type := { ko_duration : Q; ko_event : Z; ko_weight : Q }.

Definition km_dropna (df : list km_row) : list km_obs :=
  flat_map (fun r =>
    match k_duration r, k_event r, k_weight r with
    | Some t, Some e, Some w => [{| ko_duration := t; ko_event := e; ko_weight := w |}]
    | _, _, _ => []
    end) df.

(** A row of [grouped]: a distinct time with its summed weights. *)
Record km_group : Type := { kg_time : Q; kg_w_total : Q; kg_w_event : Q }.

Definition km_sum_group (g : Q * list km_obs) : km_group :=
  let (t, rows) := g in
  {| kg_time := t;
     kg_w_total := Qsum (map ko_weight rows);
     kg_w_event := Qsum (map (fun o => ko_weight o * indic (Z.eqb (ko_event o) 1)) rows) |}.

Definition km_grouped (work : list km_obs) : list km_group :=
  sort_asc kg_time (map km_sum_group (groupby ko_duration work)).

(** The update of [s] at one row of [grouped]. *)
Definition km_update (s risk d : Q) : Q :=
  if Qltb 0 risk && Qltb 0 d then s * pymaxQ 0 (1 - d / risk) else s.

(** The loop over [grouped]: the final value of [s]. *)
Fixpoint km_loop (horizon_days : Q) (grouped : list km_group) (s risk : Q) : Q :=
  match grouped with
  | [] => s
  | row :: rest =>
      if Qltb horizon_days (kg_time row) then s
      else km_loop horizon_days rest (km_update s risk (kg_w_event row))
                   (risk - kg_w_total row)
  end.

(** One iteration of the loop that went past the [break]. *)
Record km_step : Type := {
  ks_time : Q;      (* the distinct time processed *)
  ks_risk : Q;      (* [risk] on entry *)
  ks_before : Q;    (* [s] on entry *)
  ks_after : Q      (* [s] on exit *)
}.

(** The same loop, recording every iteration. *)
Fixpoint km_trace (horizon_days : Q) (grouped : list km_group) (s risk : Q) : list km_step :=
  match grouped with
  | [] => []
  | row :: rest =>
      if Qltb horizon_days (kg_time row) then []
      else
        let s' := km_update s risk (kg_w_event row) in
        {| ks_time := kg_time row; ks_risk := risk; ks_before := s; ks_after := s' |}
          :: km_trace horizon_days rest s' (risk - kg_w_total row)
  end.

Definition weighted_km_risk_at (df : list km_row) (horizon_days : Q) : float :=
  let work := km_dropna df in
  match work with
  | [] => NaN
  | _ =>
      let work := sort_asc ko_duration work in
      let total_w := Qsum (map ko_weight work) in
      if Qle_bool total_w 0 then NaN
      else Fin (1 - km_loop horizon_days (km_grouped work) 1 total_w)
  end.

(** The values of [s] during a call: the initial one, then one per iteration. *)
Definition km_s_values (df : list km_row) (horizon_days : Q) : list Q :=
  let work := sort_asc ko_duration (km_dropna df) in
  1 :: map ks_after (km_trace horizon_days (km_grouped work) 1 (Qsum (map ko_weight work))).

(** *** _weighted_aj_cif_at *)

(** One subject: the entries of [time], [status] and [weight]. *)
Record aj_row : Type := { a_time : float; a_status : Z; a_weight : float }.

(** A subject that passed [mask]: finite time, finite positive weight. *)
Record aj_obs : Type := { ao_time : Q; ao_status : Z; ao_weight : Q }.

Definition aj_mask (rows : list aj_row) : list aj_obs :=
  flat_map (fun r =>
    match a_time r, a_weight r with
    | Fin t, Fin w =>
        if Qltb 0 w
        then [{| ao_time := t; ao_status := a_status r; ao_weight := w |}]
        else []
    | _, _ => []
    end) rows.

(** [t = np.minimum(t[mask], horizon_days)]. *)
Definition aj_cap (horizon_days : Q) (o : aj_obs) : aj_obs :=
  {| ao_time := Qmin (ao_time o) horizon_days;
     ao_status := ao_status o; ao_weight := ao_weight o |}.

(** A distinct time with [w_total], [w_d1] and [w_d2]. *)
Record aj_group : Type := { ag_time : Q; ag_w_total : Q; ag_w_d1 : Q; ag_w_d2 : Q }.

Definition aj_sum_group (g : Q * list aj_obs) : aj_group :=
  let (t, rows) := g in
  {| ag_time := t;
     ag_w_total := Qsum (map ao_weight rows);
     ag_w_d1 := Qsum (map (fun o => ao_weight o * indic (Z.eqb (ao_status o) 1)) rows);
     ag_w_d2 := Qsum (map (fun o => ao_weight o * indic (Z.eqb (ao_status o) 2)) rows) |}.

Definition aj_groups (obs : list aj_obs) : list aj_group :=
  map aj_sum_group (groupby ao_time obs).

(** [y = total_w - concatenate([[0.0], cumsum(w_total)[:-1]])]. *)
Definition aj_at_risk (total_w : Q) (w_total : list Q) : list Q :=
  map (fun c => total_w - c) (0 :: removelast (cumsum w_total)).

(** The loop over [zip(uniq, y, w_d1, w_d2)]; the state is [(surv, cif)]. *)
Fixpoint aj_loop (horizon_days : Q) (rows : list (aj_group * Q)) (surv cif : Q) : Q * Q :=
  match rows with
  | [] => (surv, cif)
  | (g, yi) :: rest =>
      if Qltb horizon_days (ag_time g) then (surv, cif)
      else if Qle_bool yi 0 then aj_loop horizon_days rest surv cif
      else
        let d1i := ag_w_d1 g in
        let d2i := ag_w_d2 g in
        let cif' := if Qltb 0 d1i then cif + surv * (d1i / yi) else cif in
        let surv' := if Qltb 0 (d1i + d2i)
                     then surv * pymaxQ 0 (1 - (d1i + d2i) / yi) else surv in
        aj_loop horizon_days rest surv' cif'
  end.

Definition _weighted_aj_cif_at (rows : list aj_row) (horizon_days : Q) : float :=
  match aj_mask rows with
  | [] => NaN
  | obs =>
      let groups := aj_groups (map (aj_cap horizon_days) obs) in
      let total_w := Qsum (map ag_w_total groups) in
      if Qle_bool total_w 0 then NaN
      else
        let y := aj_at_risk total_w (map ag_w_total groups) in
        Fin (snd (aj_loop horizon_days (combine groups y) 1 0))
  end.

(** *** weighted_competing_risk_cif_rr_at *)

(** A row of the input frame; [None] and NaN are missing cells. *)
Record cr_row : Type := {
  cr_treat : option Z;
  cr_ei : option Z;     (* interest_event_col *)
  cr_ti : float;        (* interest_time_col *)
  cr_ec : option Z;     (* competing_event_col *)
  cr_tc : float;        (* competing_time_col *)
  cr_w : float          (* weight_col *)
}.

(** A row after [dropna(subset=...)], [fillna(0)] and the conversions. *)
Record cr_obs : Type := {
  co_t : Z; co_ei : Z; co_ti : float; co_ec : Z; co_tc : float; co_w : float
}.

Definition cr_dropna (df : list cr_row) : list cr_obs :=
  flat_map (fun r =>
    match cr_treat r, cr_ei r with
    | Some t, Some ei =>
        if notna (cr_ti r) && notna (cr_w r)
        then [{| co_t := t; co_ei := ei; co_ti := cr_ti r;
                 co_ec := match cr_ec r with Some ec => ec | None => 0%Z end;
                 co_tc := cr_tc r; co_w := cr_w r |}]
        else []
    | _, _ => []
    end) df.

(** The entries of [time] and [status] of one subject. *)
Definition resolve (horizon : Q) (ei : Z) (ti : float) (ec : Z) (tc : float) : float * Z :=
  let censor_time := npminimum ti (Fin horizon) in
  let interest_time := if Z.eqb ei 1 then npminimum ti (Fin horizon) else PInf in
  let comp_time :=
    if Z.eqb ec 1 && isfinite tc && fleb tc (Fin horizon)
    then npminimum tc (Fin horizon) else PInf in
  let m1 := fleb interest_time comp_time && fleb interest_time censor_time in
  let m2 := fltb comp_time interest_time && fleb comp_time censor_time in
  let status := 0%Z in
  let time := censor_time in
  let status := if m1 then 1%Z else status in
  let time := if m1 then interest_time else time in
  let status := if m2 then 2%Z else status in
  let time := if m2 then comp_time else time in
  (time, status).

Definition cr_resolved (horizon : Q) (o : cr_obs) : aj_row :=
  let (time, status) := resolve horizon (co_ei o) (co_ti o) (co_ec o) (co_tc o) in
  {| a_time := time; a_status := status; a_weight := co_w o |}.

(** The bit generator behind [np.random.default_rng]: how a seed initialises
    its state, and how [integers(0, high, size=size)] advances it. *)
Record bitgen : Type := {
  rng_state : Type;
  seed_state : Z -> rng_state;
  next_integers : rng_state -> nat -> nat -> list nat * rng_state
}.

Section Process.
Variable B : bitgen.

(** The part of the process state the function can touch: the generator
    objects that exist (a [Generator] is its index), and the arrays drawn
    from them so far, oldest first. *)
Record world : Type := {
  generators : list (rng_state B);
  drawn : list (list nat)
}.

Definition proc (A : Type) : Type := world -> exc A * world.

Definition pret {A} (a : A) : proc A := fun w => (ret a, w).

Definition pbind {A C} (m : proc A) (k : A -> proc C) : proc C :=
  fun w =>
    match m w with
    | (inl e, w') => (inl e, w')
    | (inr a, w') => k a w'
    end.

Definition lift {A} (m : exc A) : proc A := fun w => (m, w).

Fixpoint set_nth {A} (i : nat) (x : A) (l : list A) : list A :=
  match l, i with
  | [], _ => []
  | _ :: l', O => x :: l'
  | y :: l', S i' => y :: set_nth i' x l'
  end.

(** [np.random.default_rng(seed)]: a new generator object. *)
Definition default_rng (seed : Z) : proc nat :=
  fun w =>
    (ret (List.length (generators w)),
     {| generators := generators w ++ [seed_state B seed]; drawn := drawn w |}).

(** [rng.integers(0, high, size=size)]. *)
Definition integers (rng high size : nat) : proc (list nat) :=
  fun w =>
    match nth_error (generators w) rng with
    | Some g =>
        let (b, g') := next_integers B g high size in
        (ret b, {| generators := set_nth rng g' (generators w);
                   drawn := drawn w ++ [b] |})
    | None => (raise IndexError, w)
    end.
End Process.

Declare Scope proc_scope.
Delimit Scope proc_scope with proc.
Notation "x <~ m ;; k" := (pbind m (fun x => k))
  (at level 61, m at next level, right associativity) : proc_scope.

(** [a[mask]] for a boolean mask. *)
Definition select (A : Type) (mask : list bool) (a : list A) : list A :=
  map snd (filter fst (combine mask a)).

(** What one resample adds to [rd_s] and [rr_s]. *)
Definition boot_append (bcif1 bcif0 : float) (acc : list Q * list float)
    : list Q * list float :=
  match bcif1, bcif0 with
  | Fin c1, Fin c0 =>
      (fst acc ++ [c1 - c0],
       snd acc ++ [if Qltb 0 c0 then Fin (c1 / c0) else PInf])
  | _, _ => acc
  end.

Section Bootstrap.
Variable B : bitgen.
Local Open Scope proc_scope.

(** The body of [for _ in range(n_bootstrap)], [n] iterations left. *)
Fixpoint boot_loop (n : nat) (rng : nat) (horizon : Q) (subjects : list aj_row)
    (idx1 idx0 : list nat) (acc : list Q * list float)
    : proc B (list Q * list float) :=
  match n with
  | O => pret acc
  | S n' =>
      b1 <~ integers rng (List.length idx1) (List.length idx1) ;;
      b0 <~ integers rng (List.length idx0) (List.length idx0) ;;
      s1 <~ lift (take idx1 b1) ;;
      s0 <~ lift (take idx0 b0) ;;
      rows1 <~ lift (take subjects s1) ;;
      rows0 <~ lift (take subjects s0) ;;
      let bcif1 := _weighted_aj_cif_at rows1 horizon in
      let bcif0 := _weighted_aj_cif_at rows0 horizon in
      boot_loop n' rng horizon subjects idx1 idx0 (boot_append bcif1 bcif0 acc)
  end.

(** The percentile interval of a list of resampled values, if there are any. *)
Definition percentile_ci (xs : list Q) : option (float * float) :=
  match xs with
  | [] => None
  | _ => Some (Fin (quantile xs (25 # 1000)), Fin (quantile xs (975 # 1000)))
  end.

(** [[x for x in rr_s if np.isfinite(x) and x > 0]]. *)
Definition finite_positive (xs : list float) : list Q :=
  flat_map (fun x => match x with
                     | Fin q => if Qltb 0 q then [q] else []
                     | _ => []
                     end) xs.

Definition weighted_competing_risk_cif_rr_at (df : list cr_row) (horizon_days : Q)
    (n_bootstrap seed : Z) : proc B RiskEstimate :=
  let work := cr_dropna df in
  let horizon := horizon_days in
  let subjects := map (cr_resolved horizon) work in
  let mask1 := map (fun o => Z.eqb (co_t o) 1) work in
  let mask0 := map (fun o => Z.eqb (co_t o) 0) work in
  let cif1 := _weighted_aj_cif_at (select mask1 subjects) horizon in
  let cif0 := _weighted_aj_cif_at (select mask0 subjects) horizon in
  let rd := fsub cif1 cif0 in
  rr <~ lift (if fgtb cif0 zero then pydiv cif1 cif0 else ret PInf) ;;
  ci <~ (if Z.ltb 0 n_bootstrap then
           rng <~ @default_rng B seed ;;
           let idx1 := flatnonzero mask1 in
           let idx0 := flatnonzero mask0 in
           if Nat.ltb 0 (List.length idx1) && Nat.ltb 0 (List.length idx0) then
             s <~ boot_loop (Z.to_nat n_bootstrap) rng horizon subjects idx1 idx0 ([], []) ;;
             pret (percentile_ci (fst s), percentile_ci (finite_positive (snd s)))
           else pret (None, None)
         else pret (None, None)) ;;
  pret {| risk_treated := cif1; risk_control := cif0; rd := rd; rr := rr;
          rd_ci95 := fst ci; rr_ci95 := snd ci |}.
End Bootstrap.

End Effects.

(* ------------------------------------------------------------------------- *)
(** ** balance.py *)

Module Balance.
Import Effects.

(** Elementwise product of two arrays. *)
Definition times (a b : list float) : list float :=
  map (fun p => fmul (fst p) (snd p)) (combine a b).

Definition _weighted_mean (x w : list float) : float :=
  npdiv (npsum (times w x)) (npsum w).

Definition _weighted_var (x w : list float) : float :=
  let mu := _weighted_mean x w in
  npdiv (npsum (times w (map (fun xi => fmul (fsub xi mu) (fsub xi mu)) x)))
        (npsum w).

(** [np.mean] and [np.var(ddof=0)]. *)
Definition np_mean (x : list float) : float :=
  npdiv (npsum x) (of_Z (Z.of_nat (List.length x))).

Definition np_var (x : list float) : float :=
  let mu := np_mean x in
  np_mean (map (fun xi => fmul (fsub xi mu) (fsub xi mu)) x).

(** [m1], [m0], [v1], [v0] of the two branches. *)
Definition arm_moments (x : list float) (t : list Z) (w : option (list float))
    : float * float * float * float :=
  let is1 := map (fun ti => Z.eqb ti 1) t in
  let is0 := map (fun ti => Z.eqb ti 0) t in
  let x1 := select is1 x in
  let x0 := select is0 x in
  match w with
  | None => (np_mean x1, np_mean x0, np_var x1, np_var x0)
  | Some w =>
      let w1 := select is1 w in
      let w0 := select is0 w in
      (_weighted_mean x1 w1, _weighted_mean x0 w0,
       _weighted_var x1 w1, _weighted_var x0 w0)
  end.

(** [pooled = np.sqrt((v1 + v0) / 2.0)]. *)
Definition pooled_sd (M : libm) (x : list float) (t : list Z) (w : option (list float))
    : float :=
  let '(_, _, v1, v0) := arm_moments x t w in
  np_sqrt M (npdiv (fadd v1 v0) c_2).

Definition standardized_mean_difference (M : libm) (x : list float) (t : list Z)
    (w : option (list float)) : float :=
  let '(m1, m0, _, _) := arm_moments x t w in
  let pooled := pooled_sd M x t w in
  if feqb pooled zero then zero
  else npdiv (fsub m1 m0) pooled.

End Balance.

(* ------------------------------------------------------------------------- *)
(** ** meta.py *)

Module Meta.
Import Effects.

Record MetaResult : Type := {
  ratio : float; ratio_lo : float; ratio_hi : float; tau2 : float
}.

Definition _log_se_from_ci (M : libm) (est lo hi : float) : float :=
  npdiv (fsub (np_log M hi) (np_log M lo)) (fmul c_2 c_1_96).

(** [mask]: finite and strictly positive ratio and bounds. *)
Definition valid_study (s : float * float * float) : bool :=
  let '(r, lo, hi) := s in
  isfinite r && isfinite lo && isfinite hi
  && fgtb r zero && fgtb lo zero && fgtb hi zero.

Definition random_effects_meta_ratio (M : libm) (ratios ratio_los ratio_his : list float)
    : option MetaResult :=
  let kept := filter valid_study (zip3 ratios ratio_los ratio_his) in
  if Nat.ltb (List.length kept) 2 then None
  else
    let yi := map (fun '(r, _, _) => np_log M r) kept in
    let sei := map (fun '(r, lo, hi) => _log_se_from_ci M r lo hi) kept in
    let vi := map (fun s => fmul s s) sei in
    let wi := map (fun v => npdiv one v) vi in
    let y_fixed := npdiv (npsum (Balance.times wi yi)) (npsum wi) in
    let q := npsum (Balance.times wi
               (map (fun y => fmul (fsub y y_fixed) (fsub y y_fixed)) yi)) in
    let df := of_Z (Z.of_nat (List.length kept) - 1) in
    let c := fsub (npsum wi)
                  (npdiv (npsum (map (fun w => fmul w w) wi)) (npsum wi)) in
    let tau2 := if fgtb c zero then pymax zero (npdiv (fsub q df) c) else zero in
    let wi_star := map (fun v => npdiv one (fadd v tau2)) vi in
    let y_re := npdiv (npsum (Balance.times wi_star yi)) (npsum wi_star) in
    let se_re := np_sqrt M (npdiv one (npsum wi_star)) in
    Some {| ratio := np_exp M y_re;
            ratio_lo := np_exp M (fsub y_re (fmul c_1_96 se_re));
            ratio_hi := np_exp M (fadd y_re (fmul c_1_96 se_re));
            tau2 := tau2 |}.

(** The cells of one cohort in a row of the merged table; NaN and [None] are
    missing cells. *)
Record study : Type := {
  st_ratio : float;
  st_lo : float;
  st_hi : float;
  st_effect_type : option string
}.

(** The studies that enter [ratios], [los], [his]. *)
Definition candidates (row : list study) : list study :=
  filter (fun s => notna (st_ratio s) && notna (st_lo s) && notna (st_hi s)) row.

(** [effect_types], in order. *)
Definition effect_types (row : list study) : list string :=
  flat_map (fun s => match st_effect_type s with Some et => [et] | None => [] end)
           (candidates row).

(** [meta] for one row of the merged table; [row] lists the cells of
    [label_a], then of [label_b]. *)
Definition pool_row (M : libm) (row : list study) : option MetaResult :=
  if Nat.ltb 1 (List.length (nodup string_dec (effect_types row))) then None
  else
    let cs := candidates row in
    random_effects_meta_ratio M (map st_ratio cs) (map st_lo cs) (map st_hi cs).

End Meta.

(* ------------------------------------------------------------------------- *)
(** ** A libm to run the model with *)

Module Approx.
Import Effects.

(** Heron's iteration, [n] steps. *)
Fixpoint heron (n : nat) (a x : Q) : Q :=
  match n with
  | O => x
  | S n' => heron n' a (Qred ((x + a / x) / 2))
  end.

Definition sqrt_approx (x : float) : float :=
  match x with
  | Fin a =>
      if Qltb a 0 then NaN
      else if Qeq_bool a 0 then Fin 0
      else Fin (heron 5 a (Qred ((a + 1) / 2)))
  | PInf => PInf
  | NInf | NaN => NaN
  end.

(** [1 + x + x^2/2 + ... ], [n] terms after the first; [t] is the last term
    and [k] its index. *)
Fixpoint exp_series (n : nat) (x t : Q) (k : positive) : Q :=
  match n with
  | O => 0
  | S n' => let t' := Qred (t * x / inject_Z (Zpos k)) in
            t' + exp_series n' x t' (Pos.succ k)
  end.

Definition exp_approx (x : float) : float :=
  match x with
  | Fin a => Fin (Qred (1 + exp_series 8 a 1 1))
  | PInf => PInf
  | NInf => Fin 0
  | NaN => NaN
  end.

(** [2 * (z + z^3/3 + z^5/5 + ...)] with [z = (a - 1) / (a + 1)]. *)
Fixpoint atanh_series (n : nat) (z2 p : Q) (k : positive) : Q :=
  match n with
  | O => 0
  | S n' => p / inject_Z (Zpos k) + atanh_series n' z2 (Qred (p * z2)) (Pos.succ (Pos.succ k))
  end.

Definition log_approx (x : float) : float :=
  match x with
  | Fin a =>
      if Qltb a 0 then NaN
      else if Qeq_bool a 0 then NInf
      else let z := Qred ((a - 1) / (a + 1)) in
           Fin (Qred (2 * atanh_series 6 (z * z) z 1))
  | PInf => PInf
  | NInf | NaN => NaN
  end.

Definition approx_libm : libm :=
  {| np_sqrt := sqrt_approx; np_exp := exp_approx; np_log := log_approx |}.

(** A small linear congruential generator, to run the bootstrap with. *)
Fixpoint lcg_integers (g : Z) (high size : nat) : list nat * Z :=
  match size with
  | O => ([], g)
  | S size' =>
      let g' := ((1103515245 * g + 12345) mod 2147483648)%Z in
      let (rest, g'') := lcg_integers g' high size' in
      (Z.to_nat ((g' / 65536) mod Z.of_nat high) :: rest, g'')
  end.

Definition lcg : bitgen :=
  {| rng_state := Z; seed_state := fun seed => seed; next_integers := lcg_integers |}.

End Approx.

(* ------------------------------------------------------------------------- *)
(** ** Vocabulary of the properties *)

Module Spec.
Import Effects.







(** [groupby] one row at a time: the groups of [x :: l] from those of [l].
    A row joins the group of its key, at the front, or opens a new group in
    key order. *)
Section GroupInsert.
Variable A : Type.
Variable key : A -> Q.

Fixpoint group_insert (x : A) (gs : list (Q * list A)) : list (Q * list A) :=
  match gs with
  | [] => [(key x, [x])]
  | (k, ms) :: gs' =>
      if Qle_bool (key x) k then
        if Qeq_bool (key x) k then (key x, x :: ms) :: gs'
        else (key x, [x]) :: (k, ms) :: gs'
      else (k, ms) :: group_insert x gs'
  end.

(** Keys in non-decreasing order. *)
Definition ascending (l : list A) : Prop :=
  StronglySorted (fun x y => key x <= key y) l.

(** Keys in strictly increasing order. *)
Definition strictly_ascending (l : list A) : Prop :=
  StronglySorted (fun x y => key x < key y) l.
End GroupInsert.

(** Each value is at most the one before it. *)
Fixpoint non_increasing (l : list Q) : Prop :=
  match l with
  | x :: ((y :: _) as l') => y <= x /\ non_increasing l'
  | _ => True
  end.

(** Every weight present in the frame is non-negative. *)
Definition km_weights_nonneg (df : list km_row) : Prop :=
  forall r w, In r df -> k_weight r = Some w -> 0 <= w.

(** The rows of [grouped] and the initial [risk] of a call. *)
Definition km_table (df : list km_row) : list km_group :=
  km_grouped (sort_asc ko_duration (km_dropna df)).

Definition km_total (df : list km_row) : Q :=
  Qsum (map ko_weight (sort_asc ko_duration (km_dropna df))).

(** The iterations of the loop of a call. *)
Definition km_steps (df : list km_row) (horizon_days : Q) : list km_step :=
  km_trace horizon_days (km_table df) 1 (km_total df).

(** An interest event at or before the horizon. *)
Definition interest_event_by (h : Q) (ei : Z) (ti : float) : Prop :=
  ei = 1%Z /\ fleb ti (Fin h) = true.

(** A competing event at or before the horizon. *)
Definition competing_event_by (h : Q) (ec : Z) (tc : float) : Prop :=
  ec = 1%Z /\ isfinite tc = true /\ fleb tc (Fin h) = true.

(** The resolution rule in the words of the specification: an event at or
    before the horizon gives its status and its time, anything else is
    censored at the capped time. *)
Definition events_within_horizon_honoured (h : Q) (ei : Z) (ti : float) (ec : Z)
    (tc : float) (res : float * Z) : Prop :=
  (snd res = 0 \/ snd res = 1 \/ snd res = 2)%Z
  /\ (interest_event_by h ei ti \/ competing_event_by h ec tc ->
      (snd res = 1%Z /\ interest_event_by h ei ti /\ fst res = ti)
      \/ (snd res = 2%Z /\ competing_event_by h ec tc /\ fst res = tc))
  /\ (~ (interest_event_by h ei ti \/ competing_event_by h ec tc) ->
      snd res = 0%Z /\ fst res = npminimum ti (Fin h)).

(** The event times that are left after the per-time aggregation. *)
Definition cox_events_left (df : list cox_row) : list cox_time :=
  cox_event_times (cox_by_time (sort_desc o_time (cox_dropna df))).


(** A finite, strictly positive double. *)
Definition finite_positive_value (x : float) : Prop :=
  exists q, x = Fin q /\ 0 < q.

(** The studies of a row that pass the filter of the pooling routine. *)
Definition valid_candidates (row : list Meta.study) : list (float * float * float) :=
  filter Meta.valid_study
    (zip3 (map Meta.st_ratio (Meta.candidates row))
          (map Meta.st_lo (Meta.candidates row))
          (map Meta.st_hi (Meta.candidates row))).

(** Two candidate studies of the row carry different effect-type labels. *)
Definition mixed_effect_types (row : list Meta.study) : Prop :=
  exists s1 s2 a b,
    In s1 (Meta.candidates row) /\ In s2 (Meta.candidates row)
    /\ Meta.st_effect_type s1 = Some a /\ Meta.st_effect_type s2 = Some b
    /\ a <> b.

(** The bootstrap loop as a function of the state of its generator alone:
    the result, the state the generator is left in, and the arrays drawn. *)
Fixpoint boot_pure (B : bitgen) (n : nat) (g : rng_state B) (horizon : Q)
    (subjects : list aj_row) (idx1 idx0 : list nat) (acc : list Q * list float)
    : exc (list Q * list float) * rng_state B * list (list nat) :=
  match n with
  | O => (ret acc, g, [])
  | S n' =>
      let (b1, g1) := next_integers B g (List.length idx1) (List.length idx1) in
      let (b0, g0) := next_integers B g1 (List.length idx0) (List.length idx0) in
      match take idx1 b1 with
      | inl e => (inl e, g0, [b1; b0])
      | inr s1 =>
      match take idx0 b0 with
      | inl e => (inl e, g0, [b1; b0])
      | inr s0 =>
      match take subjects s1 with
      | inl e => (inl e, g0, [b1; b0])
      | inr rows1 =>
      match take subjects s0 with
      | inl e => (inl e, g0, [b1; b0])
      | inr rows0 =>
          let '(res, g', d) :=
            boot_pure B n' g0 horizon subjects idx1 idx0
              (boot_append (_weighted_aj_cif_at rows1 horizon)
                           (_weighted_aj_cif_at rows0 horizon) acc) in
          (res, g', b1 :: b0 :: d)
      end end end end
  end.

(** *** The Aalen-Johansen estimate in closed form *)


(** The sums of a subject alone, and of a subject joining a group. *)
Definition aj_single (o : aj_obs) : aj_group := aj_sum_group (ao_time o, [o]).









End Spec.
Import Spec.


(* ------------------------------------------------------------------------- *)
(** ** plots.py *)

Module Plots.
Import Effects.

(** One subject: the entries of [durations], [events] and [weights]. *)
Record curve_in : Type := { ci_duration : float; ci_event : Z; ci_weight : float }.

(** A row of the returned frame. *)
Record curve_row : Type := {
  cv_time : Q;
  cv_survival : Q;
  cv_cuminc : Q;
  cv_risk_weight : Q;
  cv_event_weight : Q
}.

(** [mask] and [t = np.maximum(t[mask], 0.0)]; an integer event is always
    finite. *)
Definition curve_mask (rows : list curve_in) : list km_obs :=
  flat_map (fun r =>
    match ci_duration r, ci_weight r with
    | Fin t, Fin w =>
        [{| ko_duration := Qmax t 0; ko_event := ci_event r; ko_weight := w |}]
    | _, _ => []
    end) rows.

(** The loop over the rows of [g]: the rows appended to [rows]. *)
Fixpoint curve_loop (g : list km_group) (surv risk : Q) : list curve_row :=
  match g with
  | [] => []
  | row :: rest =>
      let d := kg_w_event row in
      let surv' := km_update surv risk d in
      {| cv_time := kg_time row; cv_survival := surv'; cv_cuminc := 1 - surv';
         cv_risk_weight := risk; cv_event_weight := d |}
        :: curve_loop rest surv' (risk - kg_w_total row)
  end.

(** The empty frame is the empty list. *)
Definition weighted_km_curve (rows : list curve_in) : list curve_row :=
  match curve_mask rows with
  | [] => []
  | obs =>
      let work := sort_asc ko_duration obs in
      let total_w := Qsum (map ko_weight work) in
      if Qle_bool total_w 0 then []
      else
        {| cv_time := 0; cv_survival := 1; cv_cuminc := 0;
           cv_risk_weight := total_w; cv_event_weight := 0 |}
          :: curve_loop (km_grouped work) 1 total_w
  end.

(** [curve[curve["time"] <= horizon_days]] of [plot_km_curves]. *)
Definition curve_until (horizon_days : Q) (curve : list curve_row) : list curve_row :=
  filter (fun r => Qle_bool (cv_time r) horizon_days) curve.

End Plots.

(* ------------------------------------------------------------------------- *)
(** ** scripts/make_publication_board.py *)

Module Board.
Import Effects.


(** A row of the frame that the board's own [weighted_km_curve] returns. *)
Record board_row : Type := { br_time : Q; br_survival : Q; br_n_risk : Z }.

(** [int((df["time"] == row["time"]).sum())]. *)
Definition n_at (times : list Q) (t : Q) : Z :=
  Z.of_nat (List.length (filter (fun x => Qeq_bool x t) times)).

(** The loop over the rows of [g]; [times] is the column [df["time"]]. *)
Fixpoint board_loop (times : list Q) (g : list km_group) (surv risk : Q) (remaining_n : Z)
    : list board_row :=
  match g with
  | [] => []
  | row :: rest =>
      let d := kg_w_event row in
      let surv' := km_update surv risk d in
      {| br_time := kg_time row; br_survival := surv'; br_n_risk := remaining_n |}
        :: board_loop times rest surv' (risk - kg_w_total row)
             (remaining_n - n_at times (kg_time row))
  end.

(** The mask and the clamp at 0 are those of [plots.weighted_km_curve]; there
    is no guard on the total weight. *)
Definition weighted_km_curve (rows : list Plots.curve_in) : list board_row :=
  match Plots.curve_mask rows with
  | [] => []
  | obs =>
      let work := sort_asc ko_duration obs in
      let total_w := Qsum (map ko_weight work) in
      let total_n := Z.of_nat (List.length work) in
      {| br_time := 0; br_survival := 1; br_n_risk := total_n |}
        :: board_loop (map ko_duration work) (km_grouped work) 1 total_w total_n
  end.

End Board.

(* ------------------------------------------------------------------------- *)
(** ** study.py *)

Module Study.
Import Effects.






End Study.

(* ------------------------------------------------------------------------- *)
(** ** preprocess.py *)

Module Preprocess.
Import Effects.

Record TreatmentEncoding : Type := { treated_label : string; control_label : string }.

(** [is_treated | is_control] for one label. *)
Definition expected (encoding : TreatmentEncoding) (s : string) : bool :=
  String.eqb s (treated_label encoding) || String.eqb s (control_label encoding).

(** [Series.unique()]: the values in order of first appearance. *)
Fixpoint unique (seen : list string) (l : list string) : list string :=
  match l with
  | [] => []
  | s :: l' =>
      if existsb (String.eqb s) seen then unique seen l'
      else s :: unique (s :: seen) l'
  end.

(** [encode_treatment] on a treatment column that is present and has no
    missing cell; [render] is the text of the f-string for the list [bad]. *)
Definition encode_treatment (render : list string -> string)
    (encoding : TreatmentEncoding) (treatment : list string) : exc (list Z) :=
  if negb (forallb (expected encoding) treatment)
  then
    let bad := unique [] (filter (fun s => negb (expected encoding s)) treatment) in
    raise (ValueError (render bad))
  else ret (map (fun s => if String.eqb s (treated_label encoding) then 1%Z else 0%Z)
                treatment).

End Preprocess.

(* ------------------------------------------------------------------------- *)
(** ** Vocabulary of the further properties *)

Module SpecMore.
Import Effects.



(** The frame passes both early returns of [weighted_km_risk_at]. *)
Definition km_regular (df : list km_row) : Prop :=
  km_dropna df <> [] /\ 0 < Qsum (map ko_weight (km_dropna df)).

(** Every treatment value left by [dropna] is 0 or 1. *)
Definition cox_binary (df : list cox_row) : Prop :=
  forall o, In o (cox_dropna df) -> o_x o = 0%Z \/ o_x o = 1%Z.
















(** [np.log] of a positive number is a number. *)
Definition log_finite (M : libm) : Prop :=
  forall q, 0 < q -> exists l, np_log M (Fin q) = Fin l.

(** A non-negative number or +inf. *)
Definition nonneg_or_inf (x : float) : Prop :=
  x = PInf \/ exists q, x = Fin q /\ 0 <= q.

(** A positive number or +inf. *)
Definition positive_or_inf (x : float) : Prop :=
  x = PInf \/ exists q, x = Fin q /\ 0 < q.

(** One of the studies has a positive ratio and an interval of width zero. *)
Definition zero_width_study (ratios los his : list float) : Prop :=
  exists r b, In (Fin r, Fin b, Fin b) (zip3 ratios los his) /\ 0 < r /\ 0 < b.

(** [np.sqrt(nan)] is NaN. *)
Definition sqrt_of_nan (M : libm) : Prop := np_sqrt M NaN = NaN.

(** No subject is in arm [a]. *)
Definition empty_arm (a : Z) (t : list Z) : Prop := forall ti, In ti t -> ti <> a.

(** The treatment indicator with the two arms exchanged. *)
Definition swap_arms (t : list Z) : list Z := map (fun ti => (1 - ti)%Z) t.

(** The same subjects as the frame of [weighted_km_risk_at] and as the
    arrays of [weighted_km_curve]. *)
Definition as_frame (obs : list km_obs) : list km_row :=
  map (fun o => {| k_duration := Some (ko_duration o); k_event := Some (ko_event o);
                   k_weight := Some (ko_weight o) |}) obs.

Definition as_arrays (obs : list km_obs) : list Plots.curve_in :=
  map (fun o => {| Plots.ci_duration := Fin (ko_duration o); Plots.ci_event := ko_event o;
                   Plots.ci_weight := Fin (ko_weight o) |}) obs.

(** The cumulative incidence at the last point of a plotted curve. *)
Definition curve_end (curve : list Plots.curve_row) : Q :=
  last (map Plots.cv_cuminc curve) 0.









(** The number of subjects whose (clamped) time is at least [t]. *)
Definition at_risk_count (rows : list Plots.curve_in) (t : Q) : Z :=
  Z.of_nat (List.length (filter (fun o => Qle_bool t (ko_duration o)) (Plots.curve_mask rows))).

(** The frame's treatment column is the vector [t], without missing cell. *)
Definition treatment_column (df : list cox_row) (t : list Z) : Prop :=
  map c_treat df = map Some t.



End SpecMore.
Import SpecMore.
(* ------------------------------------------------------------------------- *)
(** * Properties *)

(** ** Comparisons and sums *)

Lemma Qltb_lt a b : Qltb a b = true <-> a < b.
Proof.
  unfold Qltb. rewrite negb_true_iff, <- not_true_iff_false, Qle_bool_iff.
  split; [apply Qnot_le_lt | apply Qlt_not_le].
Qed.

Lemma Qltb_ge a b : Qltb a b = false <-> b <= a.
Proof.
  unfold Qltb. rewrite negb_false_iff. apply Qle_bool_iff.
Qed.

Lemma Qle_bool_gt a b : Qle_bool a b = false <-> b < a.
Proof.
  rewrite <- not_true_iff_false, Qle_bool_iff.
  split; [apply Qnot_le_lt | apply Qlt_not_le].
Qed.

Lemma Qeq_bool_false a b : Qeq_bool a b = false <-> ~ a == b.
Proof.
  rewrite <- not_true_iff_false, Qeq_bool_iff. tauto.
Qed.

(** Case analysis on the boolean tests of the source. *)
Ltac qtest :=
  repeat match goal with
  | H : Qltb _ _ = true |- _ => apply Qltb_lt in H
  | H : Qltb _ _ = false |- _ => apply Qltb_ge in H
  | H : Qle_bool _ _ = true |- _ => apply Qle_bool_iff in H
  | H : Qle_bool _ _ = false |- _ => apply Qle_bool_gt in H
  | H : Qeq_bool _ _ = true |- _ => apply Qeq_bool_iff in H
  | H : Qeq_bool _ _ = false |- _ => apply Qeq_bool_false in H
  end.


Lemma Qsum_nonneg (l : list Q) : (forall x, In x l -> 0 <= x) -> 0 <= Qsum l.
Proof.
  induction l as [|x l IH]; simpl; intros H; [lra|].
  assert (0 <= x) by (apply H; auto).
  assert (0 <= Qsum l) by (apply IH; intros; apply H; auto).
  lra.
Qed.


Lemma Qsq_nonneg (x : Q) : 0 <= x * x.
Proof. nra. Qed.


(** ** Kish effective sample size (C6) *)

Module KishFacts.
Import Effects.













End KishFacts.

Module Kish.
Import Effects KishFacts.





Example kish_small :
  _kish_effective_n [Fin 1; Fin 1; Fin 2] = inr (Fin (16 # 6))
  /\ _kish_effective_n [Fin 2; Fin 2; Fin 2] = inr (Fin (36 # 12))
  /\ _kish_effective_n [] = inr (Fin 0).
Proof. vm_compute. repeat split. Qed.

End Kish.

(** ** Weighted binary risks (C2) *)

Module BinaryRisk.
Import Effects.

Lemma pydiv_ok x y : feqb y zero = false -> pydiv x y = inr (npdiv x y).
Proof. intros H. unfold pydiv. rewrite H. reflexivity. Qed.

Lemma fgtb_nonzero x : fgtb x zero = true -> feqb x zero = false.
Proof.
  destruct x as [q| | |]; simpl; try discriminate; try reflexivity.
  intros H. apply Qltb_lt in H. apply Qeq_bool_false. lra.
Qed.













End BinaryRisk.

Module BinaryRiskClaims.
Import Effects BinaryRisk.




End BinaryRiskClaims.

(** ** Sorting and grouping *)

Module GroupFacts.

Section Facts.
Variable A : Type.
Variable key : A -> Q.

Local Abbreviation insert_asc := (insert_asc key).
Local Abbreviation sort_asc := (sort_asc key).
Local Abbreviation runs := (runs key).
Local Abbreviation group_insert := (group_insert key).
Local Abbreviation ascending := (ascending key).

Lemma insert_asc_perm x l : Permutation (insert_asc x l) (x :: l).
Proof.
  induction l as [|y l IH]; simpl; [reflexivity|].
  destruct (Qle_bool (key x) (key y)); [reflexivity|].
  rewrite IH. apply perm_swap.
Qed.

Lemma sort_asc_perm l : Permutation (sort_asc l) l.
Proof.
  induction l as [|x l IH]; simpl; [reflexivity|].
  rewrite insert_asc_perm. constructor. exact IH.
Qed.

Lemma insert_asc_ascending x l : ascending l -> ascending (insert_asc x l).
Proof.
  unfold Spec.ascending.
  induction l as [|y l IH]; simpl; intros Hs.
  - constructor; constructor.
  - inversion Hs as [|? ? Hl Hy]; subst.
    destruct (Qle_bool (key x) (key y)) eqn:E; qtest.
    + constructor; [exact Hs|]. constructor; [exact E|].
      eapply Forall_impl; [|exact Hy]. intros z Hz. simpl in Hz. lra.
    + constructor; [apply IH; exact Hl|].
      eapply Permutation_Forall; [symmetry; apply insert_asc_perm|].
      constructor; [lra | exact Hy].
Qed.

Lemma sort_asc_ascending l : ascending (sort_asc l).
Proof.
  induction l as [|x l IH]; simpl; [constructor|].
  apply insert_asc_ascending, IH.
Qed.

(** Sorting a sorted list changes nothing. *)
Lemma sort_asc_id l : ascending l -> sort_asc l = l.
Proof.
  unfold Spec.ascending.
  induction l as [|x l IH]; intros Hs; [reflexivity|].
  inversion Hs as [|? ? Hl Hx]; subst. simpl. rewrite (IH Hl).
  destruct l as [|y l]; [reflexivity|]. simpl.
  inversion Hx as [|? ? Hxy _]; subst.
  apply Qle_bool_iff in Hxy. rewrite Hxy. reflexivity.
Qed.

Lemma runs_head x l : exists ms gs, runs (x :: l) = (key x, ms) :: gs.
Proof.
  simpl. destruct (runs l) as [|[k ms] gs]; [eauto|].
  destruct (Qeq_bool (key x) k); eauto.
Qed.

Lemma group_insert_head x gs :
  exists k ms gs', group_insert x gs = (k, ms) :: gs'
    /\ (k = key x \/ exists ms0 gs0, gs = (k, ms0) :: gs0 /\ k < key x).
Proof.
  destruct gs as [|[k ms] gs]; simpl; [eauto 6|].
  destruct (Qle_bool (key x) k) eqn:E1; qtest.
  - destruct (Qeq_bool (key x) k); eauto 6.
  - do 3 eexists. split; [reflexivity|]. right. eauto.
Qed.

Lemma group_insert_skip x k ms gs :
  Qle_bool (key x) k = false ->
  group_insert x ((k, ms) :: gs) = (k, ms) :: group_insert x gs.
Proof. intros E. simpl. rewrite E. reflexivity. Qed.

(** Inserting a row into a sorted array adds it to its group. *)
Lemma runs_insert x l :
  ascending l -> runs (insert_asc x l) = group_insert x (runs l).
Proof.
  unfold Spec.ascending.
  induction l as [|y l IH]; intros Hs; [reflexivity|].
  inversion Hs as [|? ? Hl Hy]; subst.
  cbn [Np.insert_asc].
  destruct (Qle_bool (key x) (key y)) eqn:E.
  - destruct (runs_head y l) as (ms & gs & Hr).
    change (Np.runs key (x :: y :: l)) with
      (match runs (y :: l) with
       | (k, members) :: gs =>
           if Qeq_bool (key x) k then (key x, x :: members) :: gs
           else (key x, [x]) :: (k, members) :: gs
       | [] => [(key x, [x])]
       end).
    rewrite Hr. cbn [Spec.group_insert]. rewrite E. reflexivity.
  - qtest.
    change (Np.runs key (y :: Np.insert_asc key x l)) with
      (match runs (insert_asc x l) with
       | (k, members) :: gs =>
           if Qeq_bool (key y) k then (key y, y :: members) :: gs
           else (key y, [y]) :: (k, members) :: gs
       | [] => [(key y, [y])]
       end).
    rewrite (IH Hl).
    change (Np.runs key (y :: l)) with
      (match runs l with
       | (k, members) :: gs =>
           if Qeq_bool (key y) k then (key y, y :: members) :: gs
           else (key y, [y]) :: (k, members) :: gs
       | [] => [(key y, [y])]
       end).
    destruct l as [|z l].
    + simpl. destruct (Qeq_bool (key y) (key x)) eqn:E2; qtest; [lra|].
      assert (E3 : Qle_bool (key x) (key y) = false) by (apply Qle_bool_gt; lra).
      rewrite E3. reflexivity.
    + destruct (runs_head z l) as (ms & gs & Hr). rewrite Hr.
      inversion Hy as [|? ? Hyz _]; subst.
      destruct (Qeq_bool (key y) (key z)) eqn:E2; qtest.
      * cbn [Spec.group_insert].
        assert (E3 : Qle_bool (key x) (key z) = false) by (apply Qle_bool_gt; lra).
        assert (E4 : Qle_bool (key x) (key y) = false) by (apply Qle_bool_gt; lra).
        rewrite E3, E4.
        assert (E5 : Qeq_bool (key y) (key z) = true) by (apply Qeq_bool_iff; exact E2).
        rewrite E5. reflexivity.
      * assert (E4 : Qle_bool (key x) (key y) = false) by (apply Qle_bool_gt; lra).
        rewrite (group_insert_skip x (key y) [y] ((key z, ms) :: gs) E4).
        destruct (group_insert_head x ((key z, ms) :: gs)) as (k & ms' & gs' & Hg & Hk).
        rewrite Hg.
        assert (E5 : Qeq_bool (key y) k = false).
        { apply Qeq_bool_false.
          destruct Hk as [-> | (ms0 & gs0 & Heq & _)]; [lra|].
          inversion Heq; subst. exact E2. }
        rewrite E5. reflexivity.
Qed.

(** [groupby] builds its groups row by row. *)
Lemma groupby_insert l : groupby key l = fold_right group_insert [] l.
Proof.
  unfold groupby. induction l as [|x l IH]; [reflexivity|].
  simpl. rewrite runs_insert by apply sort_asc_ascending.
  rewrite IH. reflexivity.
Qed.

(** The keys of the groups are strictly increasing. *)
Lemma group_insert_strict x gs :
  strictly_ascending fst gs -> strictly_ascending fst (group_insert x gs).
Proof.
  unfold strictly_ascending.
  induction gs as [|[k ms] gs IH]; intros Hs; simpl.
  - constructor; constructor.
  - inversion Hs as [|? ? Hgs Hk]; subst.
    destruct (Qle_bool (key x) k) eqn:E1; qtest.
    + destruct (Qeq_bool (key x) k) eqn:E2; qtest.
      * constructor; [exact Hgs|].
        eapply Forall_impl; [|exact Hk]. intros g Hg. simpl in *. lra.
      * constructor; [exact Hs|]. constructor; [simpl; lra|].
        eapply Forall_impl; [|exact Hk]. intros g Hg. simpl in *. lra.
    + constructor; [apply IH; exact Hgs|].
      destruct (group_insert_head x gs) as (k' & ms' & gs' & Hg & Hk').
      clear IH. revert Hk. generalize (Forall_nil (fun y : Q * list A => k < fst y)).
      intros _ Hk.
      assert (Hall : forall g, In g (group_insert x gs) -> k < fst g).
      { clear Hg Hk' Hs Hgs. induction gs as [|[k2 ms2] gs IH2]; simpl.
        - intros g [<-|[]]. simpl. exact E1.
        - inversion Hk as [|? ? Hk2 Hrest]; subst. simpl in Hk2.
          destruct (Qle_bool (key x) k2); [destruct (Qeq_bool (key x) k2)|].
          + intros g [<-|Hin]; [simpl; exact E1|].
            rewrite Forall_forall in Hrest. apply Hrest, Hin.
          + intros g [<-|[<-|Hin]]; [simpl; exact E1 | simpl; exact Hk2|].
            rewrite Forall_forall in Hrest. apply Hrest, Hin.
          + intros g [<-|Hin]; [simpl; exact Hk2|]. apply IH2; assumption. }
      apply Forall_forall. exact Hall.
Qed.

Lemma groupby_strict l : strictly_ascending fst (groupby key l).
Proof.
  rewrite groupby_insert. induction l as [|x l IH]; simpl.
  - constructor.
  - apply group_insert_strict, IH.
Qed.

Lemma insert_desc_perm x l : Permutation (insert_desc key x l) (x :: l).
Proof.
  induction l as [|y l IH]; simpl; [reflexivity|].
  destruct (Qle_bool (key y) (key x)); [reflexivity|].
  rewrite IH. apply perm_swap.
Qed.

Lemma sort_desc_perm l : Permutation (sort_desc key l) l.
Proof.
  induction l as [|x l IH]; simpl; [reflexivity|].
  rewrite insert_desc_perm. constructor. exact IH.
Qed.

(** Every member of a group is a row of the frame. *)
Lemma group_insert_members x gs g m :
  In g (group_insert x gs) -> In m (snd g) ->
  m = x \/ exists g0, In g0 gs /\ In m (snd g0).
Proof.
  revert g. induction gs as [|[k ms] gs IH]; intros g; simpl.
  - intros [<-|[]] [<-|[]]. left; reflexivity.
  - destruct (Qle_bool (key x) k); [destruct (Qeq_bool (key x) k)|].
    + intros [<-|Hg] Hm.
      * destruct Hm as [<-|Hm]; [left; reflexivity|].
        right. exists (k, ms). split; [left; reflexivity | exact Hm].
      * right. exists g. split; [right; exact Hg | exact Hm].
    + intros [<-|[<-|Hg]] Hm.
      * destruct Hm as [<-|[]]. left; reflexivity.
      * right. exists (k, ms). split; [left; reflexivity | exact Hm].
      * right. exists g. split; [right; exact Hg | exact Hm].
    + intros [<-|Hg] Hm.
      * right. exists (k, ms). split; [left; reflexivity | exact Hm].
      * destruct (IH g Hg Hm) as [->|(g0 & Hg0 & Hm0)]; [left; reflexivity|].
        right. exists g0. split; [right; exact Hg0 | exact Hm0].
Qed.

Lemma groupby_members l g m : In g (groupby key l) -> In m (snd g) -> In m l.
Proof.
  rewrite groupby_insert. revert g. induction l as [|x l IH]; intros g; simpl.
  - intros [].
  - intros Hg Hm.
    destruct (group_insert_members _ _ _ _ Hg Hm) as [->|(g0 & Hg0 & Hm0)].
    + left; reflexivity.
    + right. eapply IH; eassumption.
Qed.

End Facts.

End GroupFacts.

(** ** Weighted Kaplan-Meier (C4, C10) *)

Module KMFacts.
Import Effects.

Lemma Qsum_perm (a b : list Q) : Permutation a b -> Qsum a == Qsum b.
Proof.
  induction 1; simpl; try lra.
Qed.

Lemma strictly_ascending_map (A B : Type) (f : A -> B) (ka : A -> Q) (kb : B -> Q) l :
  (forall x, kb (f x) = ka x) ->
  strictly_ascending ka l -> strictly_ascending kb (map f l).
Proof.
  intros Hk. unfold strictly_ascending. induction 1 as [|x l Hs IH Hx]; simpl.
  - constructor.
  - constructor; [exact IH|]. apply Forall_map.
    eapply Forall_impl; [|exact Hx]. intros y Hy. rewrite !Hk. exact Hy.
Qed.

Lemma strictly_ascending_ascending (A : Type) (k : A -> Q) l :
  strictly_ascending k l -> ascending k l.
Proof.
  unfold strictly_ascending, ascending. induction 1 as [|x l Hs IH Hx].
  - constructor.
  - constructor; [exact IH|]. eapply Forall_impl; [|exact Hx].
    intros y Hy. simpl in Hy. lra.
Qed.

Lemma km_sum_group_time g : kg_time (km_sum_group g) = fst g.
Proof. destruct g; reflexivity. Qed.

(** [grouped] lists the distinct times in strictly increasing order. *)
Lemma km_grouped_strict work : strictly_ascending kg_time (km_grouped work).
Proof.
  unfold km_grouped.
  assert (H : strictly_ascending kg_time (map km_sum_group (groupby ko_duration work))).
  { apply strictly_ascending_map with (ka := fst); [apply km_sum_group_time|].
    apply GroupFacts.groupby_strict. }
  rewrite GroupFacts.sort_asc_id; [exact H|].
  apply strictly_ascending_ascending, H.
Qed.

Lemma pymaxQ_unit x : x <= 1 -> 0 <= pymaxQ 0 x <= 1.
Proof.
  intros H. unfold pymaxQ. destruct (Qltb 0 x) eqn:E; qtest; lra.
Qed.

Lemma km_update_bounds s risk d : 0 <= s -> 0 <= km_update s risk d <= s.
Proof.
  intros Hs. unfold km_update.
  destruct (Qltb 0 risk) eqn:E1; [|simpl; lra].
  destruct (Qltb 0 d) eqn:E2; [|simpl; lra]. simpl. qtest.
  assert (Hq : 0 < d / risk) by (apply Qlt_shift_div_l; lra).
  pose proof (pymaxQ_unit (x := 1 - d / risk)) as Hm.
  assert (H1 : 1 - d / risk <= 1) by lra.
  specialize (Hm H1). nra.
Qed.

Lemma km_update_exhausted s risk d : risk <= 0 -> km_update s risk d = s.
Proof.
  intros H. unfold km_update.
  destruct (Qltb 0 risk) eqn:E; qtest; [lra | reflexivity].
Qed.

Lemma last_cons (A : Type) (a d : A) l : last (a :: l) d = last l a.
Proof.
  revert a d. induction l as [|b l IH]; intros a d; [reflexivity|].
  change (last (b :: l) d = last (b :: l) a). rewrite !IH. reflexivity.
Qed.

Lemma last_in_cons (A : Type) (a d : A) l : In (last (a :: l) d) (a :: l).
Proof.
  revert a. induction l as [|b l IH]; intros a; [left; reflexivity|].
  right. apply IH.
Qed.

(** The recorded iterations end in the value the loop returns. *)
Lemma km_loop_trace h grouped s risk :
  km_loop h grouped s risk = last (map ks_after (km_trace h grouped s risk)) s.
Proof.
  revert s risk. induction grouped as [|row rest IH]; intros s risk; [reflexivity|].
  cbn [km_loop km_trace]. destruct (Qltb h (kg_time row)); [reflexivity|].
  rewrite IH. cbn [map ks_after]. rewrite last_cons. reflexivity.
Qed.

Lemma km_trace_steps h grouped s risk :
  0 <= s ->
  Forall (fun st => 0 <= ks_after st <= ks_before st) (km_trace h grouped s risk).
Proof.
  revert s risk. induction grouped as [|row rest IH]; intros s risk Hs; simpl.
  - constructor.
  - destruct (Qltb h (kg_time row)); [constructor|].
    pose proof (km_update_bounds risk (kg_w_event row) Hs) as Hb.
    constructor; [exact Hb|]. apply IH. lra.
Qed.

Lemma km_trace_values h grouped s risk :
  0 <= s <= 1 ->
  non_increasing (s :: map ks_after (km_trace h grouped s risk))
  /\ Forall (fun v => 0 <= v <= 1) (s :: map ks_after (km_trace h grouped s risk)).
Proof.
  revert s risk. induction grouped as [|row rest IH]; intros s risk Hs.
  - simpl. split; [exact I | constructor; [exact Hs | constructor]].
  - cbn [km_trace]. destruct (Qltb h (kg_time row)).
    + simpl. split; [exact I | constructor; [exact Hs | constructor]].
    + pose proof (@km_update_bounds s risk (kg_w_event row) (proj1 Hs)) as Hb.
      set (s' := km_update s risk (kg_w_event row)) in *.
      assert (Hs' : 0 <= s' <= 1) by lra.
      destruct (IH s' (risk - kg_w_total row) Hs') as [Hni Hall].
      cbn [map ks_after]. split.
      * split; [lra | exact Hni].
      * constructor; [exact Hs | exact Hall].
Qed.

Lemma km_trace_exhausted_step h grouped s risk :
  Forall (fun st => ks_risk st <= 0 -> ks_after st = ks_before st)
         (km_trace h grouped s risk).
Proof.
  revert s risk. induction grouped as [|row rest IH]; intros s risk; simpl.
  - constructor.
  - destruct (Qltb h (kg_time row)); [constructor|].
    constructor; [|apply IH]. simpl. intros Hr. apply km_update_exhausted, Hr.
Qed.

(** The processed times are the distinct times up to the horizon. *)
Lemma km_trace_times h grouped s risk :
  strictly_ascending kg_time grouped ->
  map ks_time (km_trace h grouped s risk)
  = map kg_time (filter (fun g => Qle_bool (kg_time g) h) grouped).
Proof.
  unfold strictly_ascending. intros Hs. revert s risk.
  induction Hs as [|row rest Hs IH Hrow]; intros s risk; [reflexivity|].
  cbn [km_trace filter]. destruct (Qltb h (kg_time row)) eqn:E.
  - assert (E' : Qle_bool (kg_time row) h = false) by (qtest; apply Qle_bool_gt; exact E).
    rewrite E'. qtest.
    assert (Hnone : filter (fun g => Qle_bool (kg_time g) h) rest = []).
    { clear IH Hs. induction rest as [|g rest IH']; [reflexivity|].
      inversion Hrow as [|? ? Hg Hrest]; subst. simpl.
      assert (E2 : Qle_bool (kg_time g) h = false) by (apply Qle_bool_gt; lra).
      rewrite E2. apply IH', Hrest. }
    rewrite Hnone. reflexivity.
  - assert (E' : Qle_bool (kg_time row) h = true) by (qtest; apply Qle_bool_iff; exact E).
    rewrite E'. cbn [map ks_time]. rewrite IH. reflexivity.
Qed.

Lemma km_trace_within h grouped s risk :
  Forall (fun st => ks_time st <= h) (km_trace h grouped s risk).
Proof.
  revert s risk. induction grouped as [|row rest IH]; intros s risk; simpl.
  - constructor.
  - destruct (Qltb h (kg_time row)) eqn:E; [constructor|]. qtest.
    constructor; [exact E | apply IH].
Qed.

(** With non-negative group weights, an exhausted risk set stays exhausted. *)
Lemma km_trace_exhausted_rest h grouped s risk :
  Forall (fun g => 0 <= kg_w_total g) grouped ->
  risk <= 0 ->
  Forall (fun st => ks_after st = s) (km_trace h grouped s risk).
Proof.
  intros Hw. revert s risk. induction Hw as [|row rest Hrow Hw IH]; intros s risk Hr; simpl.
  - constructor.
  - destruct (Qltb h (kg_time row)); [constructor|].
    rewrite (km_update_exhausted s (kg_w_event row) Hr).
    constructor; [reflexivity|]. apply IH. lra.
Qed.

Lemma km_trace_suffix h grouped s risk pre st post :
  km_trace h grouped s risk = pre ++ st :: post ->
  exists grouped',
    (exists skipped, grouped = skipped ++ grouped')
    /\ st :: post = km_trace h grouped' (ks_before st) (ks_risk st).
Proof.
  revert grouped s risk. induction pre as [|p pre IH]; intros grouped s risk H.
  - exists grouped. split; [exists []; reflexivity|].
    destruct grouped as [|row rest]; [discriminate H|].
    cbn [km_trace] in *. destruct (Qltb h (kg_time row)); [discriminate H|].
    simpl in H. inversion H; subst. reflexivity.
  - destruct grouped as [|row rest]; [discriminate H|].
    cbn [km_trace] in H. destruct (Qltb h (kg_time row)); [discriminate H|].
    simpl in H. inversion H as [[Hp Ht]]. 
    destruct (IH _ _ _ Ht) as (g' & (sk & Hsk) & Hg').
    exists g'. split; [exists (row :: sk); rewrite Hsk; reflexivity | exact Hg'].
Qed.

Lemma km_grouped_eq work :
  km_grouped work = map km_sum_group (groupby ko_duration work).
Proof.
  unfold km_grouped. apply GroupFacts.sort_asc_id.
  apply strictly_ascending_ascending.
  apply strictly_ascending_map with (ka := fst); [apply km_sum_group_time|].
  apply GroupFacts.groupby_strict.
Qed.

Lemma km_dropna_weight df o :
  In o (km_dropna df) -> exists r, In r df /\ k_weight r = Some (ko_weight o).
Proof.
  unfold km_dropna. rewrite in_flat_map. intros (r & Hr & Ho). exists r.
  split; [exact Hr|].
  destruct (k_duration r), (k_event r), (k_weight r); simpl in Ho; try contradiction.
  destruct Ho as [<-|[]]. reflexivity.
Qed.

Lemma km_table_nonneg df :
  km_weights_nonneg df -> Forall (fun g => 0 <= kg_w_total g) (km_table df).
Proof.
  intros Hw. unfold km_table. rewrite km_grouped_eq. apply Forall_map, Forall_forall.
  intros [k ms] Hg. simpl. apply Qsum_nonneg. intros w Hin.
  apply in_map_iff in Hin as (o & <- & Ho).
  pose proof (GroupFacts.groupby_members _ _ _ _ Hg Ho) as Hin.
  apply (Permutation_in _ (GroupFacts.sort_asc_perm ko_duration (km_dropna df))) in Hin.
  destruct (km_dropna_weight _ _ Hin) as (r & Hr & Hk).
  exact (Hw r _ Hr Hk).
Qed.

Lemma strictly_ascending_filter (A : Type) (k : A -> Q) (p : A -> bool) l :
  strictly_ascending k l -> strictly_ascending k (filter p l).
Proof.
  unfold strictly_ascending. induction 1 as [|x l Hs IH Hx]; simpl; [constructor|].
  destruct (p x); [|exact IH]. constructor; [exact IH|].
  apply Forall_forall. intros y Hy. apply filter_In in Hy as [Hy _].
  rewrite Forall_forall in Hx. apply Hx, Hy.
Qed.

Lemma strictly_ascending_keys (A B : Type) (ka : A -> Q) (kb : B -> Q) la lb :
  map ka la = map kb lb -> strictly_ascending kb lb -> strictly_ascending ka la.
Proof.
  unfold strictly_ascending. intros Hm Hs. revert la Hm.
  induction Hs as [|y lb Hs IH Hy]; intros la Hm.
  - destruct la; [constructor | discriminate Hm].
  - destruct la as [|x la]; [discriminate Hm|]. simpl in Hm. inversion Hm as [[Hx Hl]].
    constructor; [apply IH; exact Hl|].
    apply Forall_forall. intros x' Hx'.
    assert (Hin : In (ka x') (map kb lb)) by (rewrite <- Hl; apply in_map; exact Hx').
    apply in_map_iff in Hin as (y' & Hy' & Hin').
    rewrite Forall_forall in Hy. specialize (Hy y' Hin'). rewrite Hx, <- Hy'. exact Hy.
Qed.

End KMFacts.

Module KMClaims.
Import Effects KMFacts.

(** C4.  In [weighted_km_risk_at] the running survival value [s] starts at
    1, never increases from one processed time to the next, and stays within
    [0, 1]; an iteration that finds [risk <= 0] leaves [s] unchanged, and with
    non-negative weights so does every later one; the processed times are
    exactly the distinct times up to the horizon, in increasing order, so no
    time beyond the horizon is processed; and a call that returns a number
    returns one minus the last value of [s]. *)
Theorem km_survival_invariant (df : list km_row) (horizon_days : Q) :
  let steps := km_steps df horizon_days in
  let values := km_s_values df horizon_days in
  values = 1 :: map ks_after steps
  /\ non_increasing values
  /\ Forall (fun v => 0 <= v <= 1) values
  /\ Forall (fun st => 0 <= ks_after st <= ks_before st) steps
  /\ Forall (fun st => ks_risk st <= 0 -> ks_after st = ks_before st) steps
  /\ (km_weights_nonneg df ->
      forall pre st post,
        steps = pre ++ st :: post -> ks_risk st <= 0 ->
        Forall (fun st' => ks_after st' = ks_before st) (st :: post))
  /\ map ks_time steps
     = map kg_time (filter (fun g => Qle_bool (kg_time g) horizon_days) (km_table df))
  /\ strictly_ascending ks_time steps
  /\ Forall (fun st => ks_time st <= horizon_days) steps
  /\ (weighted_km_risk_at df horizon_days = NaN
      \/ weighted_km_risk_at df horizon_days = Fin (1 - last values 1)).
Proof.
  intros steps values.
  assert (Hunit : 0 <= 1 <= 1) by lra.
  assert (Hpos : 0 <= 1) by lra.
  pose proof (km_grouped_strict (sort_asc ko_duration (km_dropna df))) as Hstrict.
  pose proof (km_trace_times horizon_days 1 (km_total df) Hstrict) as Htimes.
  destruct (km_trace_values horizon_days (km_table df) (km_total df) Hunit) as [Hni Hall].
  split; [reflexivity|].
  split; [exact Hni|].
  split; [exact Hall|].
  split; [apply km_trace_steps; exact Hpos|].
  split; [apply km_trace_exhausted_step|].
  split.
  { intros Hw pre st post Hsplit Hrisk.
    destruct (km_trace_suffix _ _ _ _ _ _ _ Hsplit) as (g' & (sk & Hsk) & Hg').
    rewrite Hg'. apply km_trace_exhausted_rest; [|exact Hrisk].
    pose proof (km_table_nonneg Hw) as Hnn. rewrite Hsk in Hnn.
    apply Forall_app in Hnn. tauto. }
  split; [exact Htimes|].
  split.
  { eapply strictly_ascending_keys; [exact Htimes|].
    apply strictly_ascending_filter. exact Hstrict. }
  split; [apply km_trace_within|].
  unfold weighted_km_risk_at.
  destruct (km_dropna df) as [|o work] eqn:Hd; [left; reflexivity|].
  destruct (Qle_bool _ 0); [left; reflexivity|]. right.
  rewrite km_loop_trace. unfold values, km_s_values. rewrite Hd, last_cons.
  reflexivity.
Qed.

(** C10.  [weighted_km_risk_at] returns NaN when no row is left after the
    rows with a missing cell are dropped, and when the weights that are left
    sum to at most 0. *)
Theorem weighted_km_risk_at_degenerate (df : list km_row) (horizon_days : Q) :
  km_dropna df = [] \/ Qsum (map ko_weight (km_dropna df)) <= 0 ->
  weighted_km_risk_at df horizon_days = NaN.
Proof.
  intros H. unfold weighted_km_risk_at.
  destruct (km_dropna df) as [|o work] eqn:Hd; [reflexivity|].
  destruct H as [H|H]; [discriminate H|].
  assert (Hsum : Qsum (map ko_weight (sort_asc ko_duration (o :: work)))
                 == Qsum (map ko_weight (o :: work))).
  { apply Qsum_perm, Permutation_map, GroupFacts.sort_asc_perm. }
  assert (E : Qle_bool (Qsum (map ko_weight (sort_asc ko_duration (o :: work)))) 0 = true).
  { apply Qle_bool_iff. rewrite Hsum. exact H. }
  rewrite E. reflexivity.
Qed.

Lemma weighted_km_risk_at_degenerate_witness :
  weighted_km_risk_at
    [ {| k_duration := Some 3; k_event := Some 1%Z; k_weight := Some 0 |};
      {| k_duration := None; k_event := Some 0%Z; k_weight := Some 2 |} ] 28 = NaN.
Proof.
  apply weighted_km_risk_at_degenerate. right. simpl. lra.
Defined.

(** Otherwise it returns a number: a risk between 0 and 1. *)
Lemma weighted_km_risk_at_regular (df : list km_row) (horizon_days : Q) :
  km_dropna df <> [] -> 0 < Qsum (map ko_weight (km_dropna df)) ->
  exists r, weighted_km_risk_at df horizon_days = Fin r /\ 0 <= r <= 1.
Proof.
  intros Hne Hpos. unfold weighted_km_risk_at.
  destruct (km_dropna df) as [|o work] eqn:Hd; [contradiction|].
  assert (Hsum : Qsum (map ko_weight (sort_asc ko_duration (o :: work)))
                 == Qsum (map ko_weight (o :: work))).
  { apply Qsum_perm, Permutation_map, GroupFacts.sort_asc_perm. }
  assert (E : Qle_bool (Qsum (map ko_weight (sort_asc ko_duration (o :: work)))) 0 = false).
  { apply Qle_bool_gt. rewrite Hsum. exact Hpos. }
  rewrite E. eexists. split; [reflexivity|].
  rewrite km_loop_trace.
  assert (Hunit : 0 <= 1 <= 1) by lra.
  destruct (km_trace_values horizon_days
              (km_grouped (sort_asc ko_duration (o :: work)))
              (Qsum (map ko_weight (sort_asc ko_duration (o :: work)))) Hunit) as [_ Hall].
  rewrite <- last_cons with (d := 1).
  rewrite Forall_forall in Hall.
  match goal with |- 0 <= 1 - last ?l 1 <= 1 =>
    assert (Hl : 0 <= last l 1 <= 1) by (apply Hall, last_in_cons)
  end.
  lra.
Qed.

(** Events on days 1 and 3 and a censoring on day 2, with a horizon of 2 days:
    only day 1 contributes, [s = 1 - 1/4]. *)
Example km_small :
  let df := [ {| k_duration := Some 3; k_event := Some 1%Z; k_weight := Some 2 |};
              {| k_duration := Some 1; k_event := Some 1%Z; k_weight := Some 1 |};
              {| k_duration := Some 2; k_event := Some 0%Z; k_weight := Some 1 |} ] in
  same (weighted_km_risk_at df 2) (Fin (1 # 4))
  /\ map ks_time (km_steps df 2) = [1; 2]
  /\ same (weighted_km_risk_at df 0) (Fin 0).
Proof. vm_compute. repeat split. Qed.

End KMClaims.

(** ** Competing-risk resolution (C1) *)

Module Resolution.
Import Effects.

(** C1, the claim as stated fails: a subject without interest event, followed
    for 5 days, with a competing event on day 10 and a horizon of 14 days is
    resolved as censored on day 5, although the competing event occurs before
    the horizon. *)
Lemma competing_event_after_follow_up_not_honoured :
  resolve 14 0 (Fin 5) 1 (Fin 10) = (Fin 5, 0%Z)
  /\ competing_event_by 14 1 (Fin 10)
  /\ ~ events_within_horizon_honoured 14 0 (Fin 5) 1 (Fin 10)
         (resolve 14 0 (Fin 5) 1 (Fin 10)).
Proof.
  split; [reflexivity|]. split; [repeat split|].
  intros (_ & H & _).
  destruct H as [(H & _)|(H & _)]; [right; repeat split | discriminate H | discriminate H].
Qed.

(** An interest event recorded after the horizon is kept as an event at the
    horizon. *)
Example interest_event_after_horizon :
  resolve 14 1 (Fin 20) 0 NaN = (Fin 14, 1%Z).
Proof. reflexivity. Qed.

Lemma fleb_Fin a b : fleb (Fin a) (Fin b) = Qle_bool a b.
Proof.
  unfold fleb. simpl.
  destruct (Qle_bool a b) eqn:E1, (Qltb a b) eqn:E2, (Qeq_bool a b) eqn:E3;
    qtest; try reflexivity; lra.
Qed.

Lemma npminimum_Fin a b : npminimum (Fin a) (Fin b) = Fin (if Qltb b a then b else a).
Proof. simpl. destruct (Qltb b a); reflexivity. Qed.

(** The capped follow-up time is at most the horizon. *)
Lemma capped_le_horizon ti h :
  notna ti = true -> fleb (npminimum ti (Fin h)) (Fin h) = true.
Proof.
  destruct ti as [t| | |]; intros Hn; try discriminate Hn.
  - rewrite npminimum_Fin, fleb_Fin. apply Qle_bool_iff.
    destruct (Qltb h t) eqn:E; qtest; lra.
  - simpl. rewrite fleb_Fin. apply Qle_bool_iff. lra.
  - reflexivity.
Qed.

(** The competing time the source compares with. *)
Lemma comp_time_cases h ec tc :
  (competing_event_by h ec tc /\
   (if Z.eqb ec 1 && isfinite tc && fleb tc (Fin h) then npminimum tc (Fin h) else PInf) = tc)
  \/ (~ competing_event_by h ec tc /\
      (if Z.eqb ec 1 && isfinite tc && fleb tc (Fin h) then npminimum tc (Fin h) else PInf) = PInf).
Proof.
  unfold competing_event_by.
  destruct (Z.eqb_spec ec 1) as [->|Hne]; simpl.
  - destruct tc as [c| | |]; simpl; try (right; split; [intros (_ & H & _); discriminate H | reflexivity]).
    rewrite fleb_Fin. destruct (Qle_bool c h) eqn:E.
    + left. split; [repeat split|]. qtest.
      destruct (Qltb h c) eqn:E2; qtest; [lra | reflexivity].
    + right. split; [intros (_ & _ & H); discriminate H | reflexivity].
  - right. split; [intros (H & _); contradiction | reflexivity].
Qed.

Lemma fltb_Fin a b : fltb (Fin a) (Fin b) = Qltb a b.
Proof. reflexivity. Qed.

Lemma competing_event_by_test h ec tc :
  Z.eqb ec 1 && isfinite tc && fleb tc (Fin h) = true <-> competing_event_by h ec tc.
Proof.
  unfold competing_event_by. rewrite !andb_true_iff, Z.eqb_eq. tauto.
Qed.

Lemma capped_when_within ti h : fleb ti (Fin h) = true -> npminimum ti (Fin h) = ti.
Proof.
  destruct ti as [t| | |]; try discriminate; [|reflexivity].
  rewrite fleb_Fin, npminimum_Fin. intros H. apply Qle_bool_iff in H.
  destruct (Qltb h t) eqn:E; qtest; [lra | reflexivity].
Qed.

(** Settle the comparisons of the goal one at a time. *)
Ltac settle :=
  repeat first
    [ progress (rewrite ?fleb_Fin, ?fltb_Fin)
    | progress (cbn -[Qle_bool Qltb Qeq_bool])
    | match goal with
      | |- context [Qltb ?a ?b] =>
          let E := fresh "E" in destruct (Qltb a b) eqn:E; qtest; try lra
      | |- context [Qle_bool ?a ?b] =>
          let E := fresh "E" in destruct (Qle_bool a b) eqn:E; qtest; try lra
      | |- context [Qeq_bool ?a ?b] =>
          let E := fresh "E" in destruct (Qeq_bool a b) eqn:E; qtest; try lra
      end ];
  try reflexivity.

(** The pair [resolve] returns, from the capped follow-up time. *)
Lemma resolve_cases (h : Q) (ei : Z) (ti : float) (ec : Z) (tc : float) :
  let capped := npminimum ti (Fin h) in
  resolve h ei ti ec tc =
  if Z.eqb ec 1 && isfinite tc && fleb tc (Fin h)
     && (if Z.eqb ei 1 then fltb tc capped else fleb tc capped)
  then (tc, 2%Z)
  else if Z.eqb ei 1 && notna capped then (capped, 1%Z) else (capped, 0%Z).
Proof.
  intros capped. subst capped. unfold resolve.
  destruct (comp_time_cases h ec tc) as [[Hc Hct]|[Hc Hct]]; rewrite Hct; clear Hct.
  - pose proof Hc as (Hec & Hfin & Hle).
    apply competing_event_by_test in Hc. rewrite Hc. clear Hc.
    destruct tc as [c| | |]; try discriminate Hfin.
    rewrite fleb_Fin in Hle. apply Qle_bool_iff in Hle.
    destruct (Z.eqb ei 1); destruct ti as [t| | |];
      rewrite ?npminimum_Fin.
    all: try (destruct (Qltb h t) eqn:E0; qtest); settle.
  - assert (Hf : Z.eqb ec 1 && isfinite tc && fleb tc (Fin h) = false).
    { apply not_true_iff_false. intros H. apply Hc, competing_event_by_test, H. }
    rewrite Hf. clear Hf Hc.
    destruct (Z.eqb ei 1); destruct ti as [t| | |];
      rewrite ?npminimum_Fin.
    all: try (destruct (Qltb h t) eqn:E0; qtest); settle.
Qed.

(** C1, amended: every subject gets one status among 0, 1, 2 and a time
    that is at most the horizon.  An interest event at or before the horizon
    gives status 1 at its time, unless a competing event at or before the
    horizon comes strictly earlier, which gives status 2 at the competing
    time.  A subject without interest event gets status 2 at the competing
    time when a competing event occurs at or before the capped follow-up time
    [min(ti, horizon)], and is otherwise censored, status 0, at that capped
    time. *)
Theorem resolve_spec (h : Q) (ei : Z) (ti : float) (ec : Z) (tc : float) :
  let res := resolve h ei ti ec tc in
  let capped := npminimum ti (Fin h) in
  (snd res = 0 \/ snd res = 1 \/ snd res = 2)%Z
  /\ (notna ti = true -> fleb (fst res) (Fin h) = true)
  /\ (interest_event_by h ei ti ->
      (competing_event_by h ec tc /\ fltb tc ti = true -> res = (tc, 2%Z))
      /\ (~ (competing_event_by h ec tc /\ fltb tc ti = true) -> res = (ti, 1%Z)))
  /\ (ei <> 1%Z ->
      (competing_event_by h ec tc /\ fleb tc capped = true -> res = (tc, 2%Z))
      /\ (~ (competing_event_by h ec tc /\ fleb tc capped = true) ->
          res = (capped, 0%Z))).
Proof.
  intros res capped. subst res. rewrite resolve_cases. fold capped.
  set (comp := Z.eqb ec 1 && isfinite tc && fleb tc (Fin h)).
  assert (Hcomp : comp = true <-> competing_event_by h ec tc)
    by apply competing_event_by_test.
  split; [|split; [|split]].
  - destruct (comp && _); [tauto|]. destruct (Z.eqb ei 1 && notna capped); tauto.
  - intros Hn. destruct (comp && _) eqn:E.
    + apply andb_true_iff in E as [E _]. apply Hcomp in E as (_ & _ & E). exact E.
    + assert (Hcap : fleb capped (Fin h) = true) by (apply capped_le_horizon, Hn).
      destruct (Z.eqb ei 1 && notna capped); exact Hcap.
  - intros [-> Hle]. cbn [Z.eqb Pos.eqb].
    assert (Ecap : capped = ti) by (apply capped_when_within, Hle).
    rewrite Ecap.
    assert (Hn : notna ti = true) by (destruct ti; try reflexivity; discriminate Hle).
    rewrite Hn. cbn [andb]. split.
    + intros [Hc Hlt]. apply Hcomp in Hc. rewrite Hc, Hlt. reflexivity.
    + intros Hno. destruct (comp && fltb tc ti) eqn:E; [|reflexivity].
      exfalso. apply Hno. apply andb_true_iff in E as [E1 E2].
      split; [apply Hcomp, E1 | exact E2].
  - intros Hne. apply Z.eqb_neq in Hne. rewrite Hne. cbn [andb]. split.
    + intros [Hc Hle]. apply Hcomp in Hc. rewrite Hc, Hle. reflexivity.
    + intros Hno. destruct (comp && fleb tc capped) eqn:E; [|reflexivity].
      exfalso. apply Hno. apply andb_true_iff in E as [E1 E2].
      split; [apply Hcomp, E1 | exact E2].
Qed.

End Resolution.

(** ** Weighted Cox fit (C3) *)

Module Cox.
Import Effects.




Lemma zip3_in_fst (A B C : Type) (a : list A) (b : list B) (c : list C) x y z :
  In (x, y, z) (zip3 a b c) -> In x a.
Proof.
  revert b c. induction a as [|x0 a IH]; intros [|y0 b] [|z0 c]; simpl; try tauto.
  intros [E|H]; [inversion E; subst; left; reflexivity | right; eapply IH; exact H].
Qed.

Lemma Qsum_all_zero (l : list Q) : (forall x, In x l -> x == 0) -> Qsum l == 0.
Proof.
  induction l as [|x l IH]; simpl; intros H; [reflexivity|].
  rewrite (H x) by (left; reflexivity). rewrite IH; [ring|].
  intros y Hy. apply H. right. exact Hy.
Qed.

Lemma filter_none (A : Type) (p : A -> bool) (l : list A) :
  (forall x, In x l -> p x = false) -> filter p l = [].
Proof.
  induction l as [|x l IH]; intros H; [reflexivity|]. simpl.
  rewrite (H x (or_introl eq_refl)). apply IH. intros y Hy. apply H. right. exact Hy.
Qed.

(** Without a row that carries an event, no event time is left. *)
Lemma no_event_rows_no_event_times (df : list cox_row) :
  (forall o, In o (cox_dropna df) -> o_event o <> 1%Z) ->
  cox_events_left df = [].
Proof.
  intros Hno. unfold cox_events_left, cox_event_times.
  apply filter_none.
  intros r Hr. unfold cox_risk_sets in Hr.
  apply in_map_iff in Hr as ([[g R1] R0] & <- & Hz). simpl.
  apply zip3_in_fst in Hz. unfold cox_by_time in Hz.
  apply (Permutation_in _ (GroupFacts.sort_desc_perm g_time _)) in Hz.
  apply in_map_iff in Hz as ([k ms] & <- & Hg). simpl.
  assert (Hms : forall o, In o ms -> o_event o <> 1%Z).
  { intros o Ho. apply Hno.
    pose proof (GroupFacts.groupby_members _ _ _ _ Hg Ho) as Hin.
    apply (Permutation_in _ (GroupFacts.sort_desc_perm o_time _)) in Hin. exact Hin. }
  apply Qltb_ge.
  assert (H1 : Qsum (map (fun o => o_w o * indic (Z.eqb (o_x o) 1 && Z.eqb (o_event o) 1)) ms) == 0).
  { apply Qsum_all_zero. intros x Hx. apply in_map_iff in Hx as (o & <- & Ho).
    destruct (Z.eqb_spec (o_event o) 1) as [E|_]; [exfalso; exact (Hms o Ho E)|].
    rewrite andb_false_r. simpl. ring. }
  assert (H0 : Qsum (map (fun o => o_w o * indic (Z.eqb (o_x o) 0 && Z.eqb (o_event o) 1)) ms) == 0).
  { apply Qsum_all_zero. intros x Hx. apply in_map_iff in Hx as (o & <- & Ho).
    destruct (Z.eqb_spec (o_event o) 1) as [E|_]; [exfalso; exact (Hms o Ho E)|].
    rewrite andb_false_r. simpl. ring. }
  rewrite H1, H0. lra.
Qed.

(** The two errors on small frames. *)
Example cox_no_events :
  fit_weighted_cox Approx.approx_libm "treatment_treated"
    [ {| c_duration := Some 2; c_event := Some 0%Z; c_weight := Some 1; c_treat := Some 1%Z |};
      {| c_duration := Some 3; c_event := Some 0%Z; c_weight := Some 1; c_treat := Some 0%Z |} ]
  = inl (ValueError "No events present for Cox fit.").
Proof. vm_compute. reflexivity. Qed.

Example cox_non_binary_treatment :
  fit_weighted_cox Approx.approx_libm "treatment_treated"
    [ {| c_duration := Some 2; c_event := Some 1%Z; c_weight := Some 1; c_treat := Some 2%Z |} ]
  = inl (ValueError "treatment_treated must be 0/1 for Cox fit.").
Proof. vm_compute. reflexivity. Qed.

End Cox.

(** ** Standardized mean difference (C9) *)

Module BalanceClaims.
Import Effects Balance.



(** Without the guard the quotient would not be a number here. *)
Example smd_unguarded_quotient_is_nan :
  npdiv (fsub (Fin 3) (Fin 3)) zero = NaN /\ npdiv (fsub (Fin 3) (Fin 5)) zero = NInf.
Proof. split; reflexivity. Qed.

End BalanceClaims.

(** ** Random-effects pooling (C7) *)

Module MetaClaims.
Import Effects Meta.

Lemma valid_study_spec r lo hi :
  valid_study (r, lo, hi) = true <->
  finite_positive_value r /\ finite_positive_value lo /\ finite_positive_value hi.
Proof.
  unfold valid_study, finite_positive_value, fgtb. split.
  - intros H. repeat (apply andb_true_iff in H as [H ?]).
    destruct r as [qr| | |], lo as [ql| | |], hi as [qh| | |]; try discriminate.
    simpl in *. qtest. repeat split; eexists; (split; [reflexivity|assumption]).
  - intros ((qr & -> & Hr) & (ql & -> & Hl) & (qh & -> & Hh)). simpl.
    apply Qltb_lt in Hr, Hl, Hh. rewrite Hr, Hl, Hh. reflexivity.
Qed.

Lemma distinct_labels_counted (l : list string) a b :
  In a l -> In b l -> a <> b -> (1 < List.length (nodup string_dec l))%nat.
Proof.
  intros Ha Hb Hne.
  assert (Hnd : NoDup [a; b]).
  { constructor; [intros [E|[]]; apply Hne; symmetry; exact E|].
    constructor; [intros []|constructor]. }
  assert (Hincl : incl [a; b] (nodup string_dec l)).
  { intros z [<-|[<-|[]]]; apply nodup_In; assumption. }
  pose proof (NoDup_incl_length Hnd Hincl) as Hlen. simpl in Hlen. lia.
Qed.

Lemma effect_type_listed row s a :
  In s (candidates row) -> st_effect_type s = Some a -> In a (effect_types row).
Proof.
  intros Hs Ha. unfold effect_types. apply in_flat_map. exists s.
  split; [exact Hs|]. rewrite Ha. left. reflexivity.
Qed.

(** C7.  [random_effects_meta_ratio] keeps the studies whose ratio and
    bounds are finite and strictly positive, returns no result when fewer than
    two are kept and a result otherwise; and for a row of the merged table no
    pooled estimate is computed when two candidate studies carry different
    effect-type labels, nor when fewer than two candidates are valid. *)
Theorem pooling_needs_two_compatible_studies (M : libm) :
  (forall r lo hi,
      valid_study (r, lo, hi) = true <->
      finite_positive_value r /\ finite_positive_value lo /\ finite_positive_value hi)
  /\ (forall ratios los his,
      (List.length (filter valid_study (zip3 ratios los his)) < 2)%nat ->
      random_effects_meta_ratio M ratios los his = None)
  /\ (forall ratios los his,
      (2 <= List.length (filter valid_study (zip3 ratios los his)))%nat ->
      exists res, random_effects_meta_ratio M ratios los his = Some res)
  /\ (forall row, mixed_effect_types row -> pool_row M row = None)
  /\ (forall row,
      (List.length (valid_candidates row) < 2)%nat -> pool_row M row = None).
Proof.
  split; [apply valid_study_spec|].
  assert (Hfew : forall ratios los his,
             (List.length (filter valid_study (zip3 ratios los his)) < 2)%nat ->
             random_effects_meta_ratio M ratios los his = None).
  { intros ratios los his H. unfold random_effects_meta_ratio.
    apply Nat.ltb_lt in H. rewrite H. reflexivity. }
  split; [exact Hfew|]. split.
  { intros ratios los his H. unfold random_effects_meta_ratio.
    apply Nat.ltb_ge in H. rewrite H. eexists. reflexivity. }
  split.
  - intros row (s1 & s2 & a & b & H1 & H2 & Ha & Hb & Hne). unfold pool_row.
    assert (Hlen : (1 < List.length (nodup string_dec (effect_types row)))%nat).
    { apply distinct_labels_counted with (a := a) (b := b).
      - exact (effect_type_listed row s1 H1 Ha).
      - exact (effect_type_listed row s2 H2 Hb).
      - exact Hne. }
    apply Nat.ltb_lt in Hlen. rewrite Hlen. reflexivity.
  - intros row H. unfold pool_row.
    destruct (Nat.ltb 1 _); [reflexivity|]. apply Hfew, H.
Qed.

(** A hazard ratio and a risk ratio for one outcome are not pooled; a single
    study is not pooled either. *)
Example pool_row_mixed :
  pool_row Approx.approx_libm
    [ {| st_ratio := Fin (12 # 10); st_lo := Fin 1; st_hi := Fin (144 # 100);
         st_effect_type := Some "hr"%string |};
      {| st_ratio := Fin (11 # 10); st_lo := Fin (9 # 10); st_hi := Fin (13 # 10);
         st_effect_type := Some "rr"%string |} ] = None.
Proof. reflexivity. Qed.

Example pool_row_single :
  pool_row Approx.approx_libm
    [ {| st_ratio := Fin (12 # 10); st_lo := Fin 1; st_hi := Fin (144 # 100);
         st_effect_type := Some "hr"%string |};
      {| st_ratio := NaN; st_lo := NaN; st_hi := NaN; st_effect_type := None |} ] = None.
Proof. reflexivity. Qed.

End MetaClaims.

(** ** The bootstrap (C8) *)

Module BootstrapFacts.
Import Effects.

Section Store.
Variable A : Type.

Lemma set_nth_same (i : nat) (x : A) l : nth_error l i = Some x -> set_nth i x l = l.
Proof.
  revert i. induction l as [|y l IH]; intros [|i]; simpl; intros H; try discriminate.
  - inversion H; reflexivity.
  - rewrite (IH i H). reflexivity.
Qed.

Lemma set_nth_twice (i : nat) (x y : A) l : set_nth i y (set_nth i x l) = set_nth i y l.
Proof.
  revert i. induction l as [|z l IH]; intros [|i]; simpl; try reflexivity.
  rewrite IH. reflexivity.
Qed.

Lemma nth_error_set_nth (i : nat) (x y : A) l :
  nth_error l i = Some y -> nth_error (set_nth i x l) i = Some x.
Proof.
  revert i. induction l as [|z l IH]; intros [|i]; simpl; intros H; try discriminate.
  - reflexivity.
  - apply IH, H.
Qed.

Lemma nth_error_fresh (x : A) l : nth_error (l ++ [x]) (List.length l) = Some x.
Proof.
  induction l as [|y l IH]; simpl; [reflexivity | exact IH].
Qed.
End Store.

Section Loop.
Variable B : bitgen.

(** In any world the loop does what [boot_pure] says, and touches nothing
    but its own generator and the record of the draws. *)
Lemma boot_loop_pure n rng horizon subjects idx1 idx0 :
  forall acc (g : rng_state B) (w : world B),
    nth_error (generators w) rng = Some g ->
    boot_loop n rng horizon subjects idx1 idx0 acc w =
    (let '(res, g', d) := boot_pure B n g horizon subjects idx1 idx0 acc in
     (res, {| generators := set_nth rng g' (generators w); drawn := drawn w ++ d |})).
Proof.
  induction n as [|n IH]; intros acc g [gens dr] Hg; simpl in Hg.
  - simpl. unfold pret. rewrite (@set_nth_same _ rng g gens Hg), app_nil_r. reflexivity.
  - cbn [boot_loop boot_pure]. unfold pbind, integers, lift.
    cbn [generators drawn]. rewrite Hg.
    destruct (next_integers B g (List.length idx1) (List.length idx1)) as [b1 g1].
    cbn [ret generators drawn].
    rewrite (@nth_error_set_nth _ rng g1 g gens Hg).
    destruct (next_integers B g1 (List.length idx0) (List.length idx0)) as [b0 g0].
    cbn [ret generators drawn].
    rewrite set_nth_twice, <- app_assoc. cbn [app].
    destruct (take idx1 b1) as [e|s1]; [reflexivity|].
    destruct (take idx0 b0) as [e|s0]; [reflexivity|].
    destruct (take subjects s1) as [e|rows1]; [reflexivity|].
    destruct (take subjects s0) as [e|rows0]; [reflexivity|].
    rewrite (IH _ g0); [|cbn [generators]; exact (@nth_error_set_nth _ rng g0 g gens Hg)].
    cbn [generators drawn].
    destruct (boot_pure B n g0 horizon subjects idx1 idx0 _) as [[res g'] d].
    rewrite set_nth_twice, <- app_assoc. reflexivity.
Qed.

(** A call leaves a result and draws that do not depend on the world it runs in. *)
Lemma call_independent_of_world df horizon_days n_bootstrap seed :
  exists res d, forall w : world B,
    fst (@weighted_competing_risk_cif_rr_at B df horizon_days n_bootstrap seed w) = res
    /\ drawn (snd (@weighted_competing_risk_cif_rr_at B df horizon_days n_bootstrap seed w))
       = drawn w ++ d.
Proof.
  unfold weighted_competing_risk_cif_rr_at.
  set (work := cr_dropna df).
  set (subjects := map (cr_resolved horizon_days) work).
  set (mask1 := map (fun o => Z.eqb (co_t o) 1) work).
  set (mask0 := map (fun o => Z.eqb (co_t o) 0) work).
  set (cif1 := _weighted_aj_cif_at (select mask1 subjects) horizon_days).
  set (cif0 := _weighted_aj_cif_at (select mask0 subjects) horizon_days).
  unfold pbind at 1. unfold lift.
  destruct (if fgtb cif0 zero then pydiv cif1 cif0 else ret PInf) as [e|rr].
  { exists (inl e), []. intros w. rewrite app_nil_r. split; reflexivity. }
  unfold pbind at 1.
  destruct (Z.ltb 0 n_bootstrap).
  - unfold pbind at 1. unfold default_rng. cbn [ret].
    destruct (Nat.ltb 0 (List.length (flatnonzero mask1))
              && Nat.ltb 0 (List.length (flatnonzero mask0))).
    + destruct (boot_pure B (Z.to_nat n_bootstrap) (seed_state B seed) horizon_days
                  subjects (flatnonzero mask1) (flatnonzero mask0) ([], []))
        as [[res g'] d] eqn:Hp.
      destruct res as [e|s].
      * exists (inl e), d. intros w. unfold pbind, ret.
        erewrite !boot_loop_pure by (cbn [generators]; apply nth_error_fresh).
        rewrite Hp. cbn. split; reflexivity.
      * eexists _, d. intros w. unfold pbind, ret.
        erewrite !boot_loop_pure by (cbn [generators]; apply nth_error_fresh).
        rewrite Hp. cbn. split; reflexivity.
    + eexists _, []. intros w. cbn. rewrite app_nil_r. split; reflexivity.
  - eexists _, []. intros w. cbn. rewrite app_nil_r. split; reflexivity.
Qed.

End Loop.

End BootstrapFacts.

Module BootstrapClaims.
Import Effects BootstrapFacts.

(** C8.  Two calls of [weighted_competing_risk_cif_rr_at] on the same data
    with the same seed and the same resample count, in whatever state the
    process is at each call, draw the same arrays from the generator and
    return the same estimate, percentile intervals included. *)
Theorem bootstrap_deterministic (B : bitgen) (df : list cr_row) (horizon_days : Q)
    (n_bootstrap seed : Z) (w1 w2 : world B) :
  let call := @weighted_competing_risk_cif_rr_at B df horizon_days n_bootstrap seed in
  fst (call w1) = fst (call w2)
  /\ (forall est1 est2,
         fst (call w1) = inr est1 -> fst (call w2) = inr est2 ->
         rd_ci95 est1 = rd_ci95 est2 /\ rr_ci95 est1 = rr_ci95 est2)
  /\ exists d, drawn (snd (call w1)) = drawn w1 ++ d
            /\ drawn (snd (call w2)) = drawn w2 ++ d.
Proof.
  intros call. subst call.
  destruct (call_independent_of_world B df horizon_days n_bootstrap seed) as (res & d & H).
  destruct (H w1) as [R1 D1]. destruct (H w2) as [R2 D2].
  split; [rewrite R1, R2; reflexivity|]. split.
  - intros est1 est2 E1 E2. rewrite R1 in E1. rewrite R2 in E2.
    rewrite E1 in E2. inversion E2; subst. split; reflexivity.
  - exists d. split; assumption.
Qed.

(** Four subjects, a horizon of 14 days, three resamples, seed 7: a second call
    in the world the first one left returns the same estimate and draws the
    same arrays again. *)
Example bootstrap_twice :
  let df :=
    [ {| cr_treat := Some 1%Z; cr_ei := Some 1%Z; cr_ti := Fin 3;
         cr_ec := Some 0%Z; cr_tc := NaN; cr_w := Fin 1 |};
      {| cr_treat := Some 1%Z; cr_ei := Some 0%Z; cr_ti := Fin 20;
         cr_ec := Some 1%Z; cr_tc := Fin 9; cr_w := Fin 2 |};
      {| cr_treat := Some 0%Z; cr_ei := Some 1%Z; cr_ti := Fin 6;
         cr_ec := None; cr_tc := NaN; cr_w := Fin 1 |};
      {| cr_treat := Some 0%Z; cr_ei := Some 0%Z; cr_ti := Fin 30;
         cr_ec := Some 0%Z; cr_tc := NaN; cr_w := Fin (3 # 2) |} ] in
  let call := @weighted_competing_risk_cif_rr_at Approx.lcg df 14 3 7 in
  let w0 := {| generators := []; drawn := [] |} in
  fst (call (snd (call w0))) = fst (call w0)
  /\ drawn (snd (call w0)) = [[0; 0]; [0; 0]; [1; 1]; [0; 0]; [1; 1]; [1; 1]]%nat
  /\ drawn (snd (call (snd (call w0)))) = drawn (snd (call w0)) ++ drawn (snd (call w0))
  /\ exists est, fst (call w0) = inr est /\ rd_ci95 est <> None.
Proof.
  vm_compute. repeat split. eexists. split; [reflexivity | discriminate].
Qed.

End BootstrapClaims.

(** ** Weighted Aalen-Johansen cumulative incidence (C5) *)

Module AJFacts.
Import Effects.

(** *** The groups, one subject at a time *)














(** *** The closed form *)












(** *** The loop computes the closed form *)






(** *** Capping the times lumps the late groups *)
















Lemma aj_single_time o : ag_time (aj_single o) = ao_time o.
Proof. reflexivity. Qed.



End AJFacts.

Module AJClaims.
Import Effects AJFacts.









(** One event on day 10 and one censoring on day 5, unit weights. *)
Example aj_small :
  let rows := [ {| a_time := Fin 10; a_status := 1; a_weight := Fin 1 |};
                {| a_time := Fin 5; a_status := 0; a_weight := Fin 1 |} ] in
  same (_weighted_aj_cif_at rows 3) (Fin (1 # 2))
  /\ same (_weighted_aj_cif_at rows 20) (Fin 1).
Proof. split; vm_compute; reflexivity. Qed.

End AJClaims.
(* ------------------------------------------------------------------------- *)
(** * Further properties *)

(** ** Groups and their keys *)

Module GroupMore.

Section Keys.
Variable A : Type.
Variable key : A -> Q.

(** The key of a group is the key of a row of the frame. *)
Lemma group_insert_keys x gs g :
  In g (group_insert key x gs) ->
  fst g = key x \/ exists g0, In g0 gs /\ fst g = fst g0.
Proof.
  revert g. induction gs as [|[k ms] gs IH]; intros g; simpl.
  - intros [<-|[]]. left; reflexivity.
  - destruct (Qle_bool (key x) k); [destruct (Qeq_bool (key x) k)|].
    + intros [<-|Hg]; [left; reflexivity|].
      right. exists g. split; [right; exact Hg | reflexivity].
    + intros [<-|[<-|Hg]]; [left; reflexivity | |].
      * right. exists (k, ms). split; [left; reflexivity | reflexivity].
      * right. exists g. split; [right; exact Hg | reflexivity].
    + intros [<-|Hg].
      * right. exists (k, ms). split; [left; reflexivity | reflexivity].
      * destruct (IH g Hg) as [E|(g0 & Hg0 & E)]; [left; exact E|].
        right. exists g0. split; [right; exact Hg0 | exact E].
Qed.

Lemma groupby_keys l g : In g (groupby key l) -> exists x, In x l /\ fst g = key x.
Proof.
  rewrite GroupFacts.groupby_insert. revert g. induction l as [|x l IH]; intros g; simpl.
  - intros [].
  - intros Hg. destruct (group_insert_keys _ _ _ Hg) as [E|(g0 & Hg0 & E)].
    + exists x. split; [left; reflexivity | exact E].
    + destruct (IH g0 Hg0) as (y & Hy & Ey). exists y.
      split; [right; exact Hy | rewrite E; exact Ey].
Qed.
End Keys.

End GroupMore.

(** ** Weighted binary risks and the Kish effective sample size *)

Module BinaryRiskMore.
Import Effects BinaryRisk KishFacts.





End BinaryRiskMore.

Module KishMore.
Import Effects KishFacts.







End KishMore.
(** ** Weighted Kaplan-Meier risk *)

Module KMMore.
Import Effects KMFacts.

Lemma km_result df h :
  km_regular df ->
  weighted_km_risk_at df h
  = Fin (1 - km_loop h (km_table df) 1 (km_total df)).
Proof.
  intros [Hne Hpos]. unfold weighted_km_risk_at, km_table, km_total.
  destruct (km_dropna df) as [|o work] eqn:Hd; [contradiction|].
  assert (Hsum : Qsum (map ko_weight (sort_asc ko_duration (o :: work)))
                 == Qsum (map ko_weight (o :: work))).
  { apply Qsum_perm, Permutation_map, GroupFacts.sort_asc_perm. }
  assert (E : Qle_bool (Qsum (map ko_weight (sort_asc ko_duration (o :: work)))) 0 = false).
  { apply Qle_bool_gt. rewrite Hsum. exact Hpos. }
  rewrite E. reflexivity.
Qed.

Lemma km_loop_bounds h grouped s risk :
  0 <= s -> 0 <= km_loop h grouped s risk <= s.
Proof.
  revert s risk. induction grouped as [|row rest IH]; intros s risk Hs; simpl; [lra|].
  destruct (Qltb h (kg_time row)); [lra|].
  pose proof (@km_update_bounds s risk (kg_w_event row) Hs) as Hb.
  specialize (IH (km_update s risk (kg_w_event row)) (risk - kg_w_total row) (proj1 Hb)).
  lra.
Qed.

Lemma km_loop_horizon h h' grouped s risk :
  h <= h' -> 0 <= s -> km_loop h' grouped s risk <= km_loop h grouped s risk.
Proof.
  intros Hh. revert s risk. induction grouped as [|row rest IH]; intros s risk Hs; simpl; [lra|].
  destruct (Qltb h (kg_time row)) eqn:E; destruct (Qltb h' (kg_time row)) eqn:E'; qtest.
  - lra.
  - pose proof (@km_update_bounds s risk (kg_w_event row) Hs) as Hb.
    pose proof (@km_loop_bounds h' rest (km_update s risk (kg_w_event row))
                  (risk - kg_w_total row) (proj1 Hb)).
    lra.
  - lra.
  - apply IH. apply (@km_update_bounds s risk (kg_w_event row) Hs).
Qed.

(** X5.  On a frame with a row left and positive total weight,
    [weighted_km_risk_at] returns a number between 0 and 1. *)
Theorem km_risk_is_a_probability (df : list km_row) (horizon_days : Q) :
  km_regular df ->
  exists r, weighted_km_risk_at df horizon_days = Fin r /\ 0 <= r <= 1.
Proof.
  intros H. rewrite (km_result horizon_days H). eexists. split; [reflexivity|].
  assert (Hs : 0 <= 1) by lra.
  pose proof (@km_loop_bounds horizon_days (km_table df) 1 (km_total df) Hs). lra.
Qed.


Lemma km_risk_is_a_probability_witness :
  exists r,
    weighted_km_risk_at
      [ {| k_duration := Some 3; k_event := Some 1%Z; k_weight := Some 2 |};
        {| k_duration := Some 1; k_event := Some 1%Z; k_weight := Some 1 |};
        {| k_duration := Some 2; k_event := Some 0%Z; k_weight := Some 1 |} ] 2 = Fin r
    /\ 0 <= r <= 1.
Proof.
  apply km_risk_is_a_probability. split; [discriminate | vm_compute; reflexivity].
Defined.

(** X6.  On the same frame the risk at a later horizon is at least the risk
    at an earlier one. *)
Theorem km_risk_monotone_in_horizon (df : list km_row) (h h' : Q) :
  km_regular df -> h <= h' ->
  exists r r',
    weighted_km_risk_at df h = Fin r /\ weighted_km_risk_at df h' = Fin r' /\ r <= r'.
Proof.
  intros H Hh. rewrite (km_result h H), (km_result h' H). do 2 eexists.
  split; [reflexivity|]. split; [reflexivity|].
  assert (Hs : 0 <= 1) by lra.
  pose proof (@km_loop_horizon h h' (km_table df) 1 (km_total df) Hh Hs). lra.
Qed.

Lemma km_risk_monotone_in_horizon_witness :
  exists r r',
    weighted_km_risk_at
      [ {| k_duration := Some 3; k_event := Some 1%Z; k_weight := Some 2 |};
        {| k_duration := Some 1; k_event := Some 1%Z; k_weight := Some 1 |};
        {| k_duration := Some 2; k_event := Some 0%Z; k_weight := Some 1 |} ] 2 = Fin r
    /\ weighted_km_risk_at
      [ {| k_duration := Some 3; k_event := Some 1%Z; k_weight := Some 2 |};
        {| k_duration := Some 1; k_event := Some 1%Z; k_weight := Some 1 |};
        {| k_duration := Some 2; k_event := Some 0%Z; k_weight := Some 1 |} ] 28 = Fin r'
    /\ r <= r'.
Proof.
  apply km_risk_monotone_in_horizon.
  - split; [discriminate | vm_compute; reflexivity].
  - vm_compute. discriminate.
Defined.

Lemma km_loop_beyond h grouped s risk :
  Forall (fun g => h < kg_time g) grouped -> km_loop h grouped s risk = s.
Proof.
  intros H. destruct grouped as [|row rest]; [reflexivity|].
  inversion H as [|? ? Hrow _]; subst. simpl.
  apply Qltb_lt in Hrow. rewrite Hrow. reflexivity.
Qed.

Lemma km_table_times df g :
  In g (km_table df) -> exists o, In o (km_dropna df) /\ kg_time g = ko_duration o.
Proof.
  unfold km_table. rewrite km_grouped_eq. intros Hg.
  apply in_map_iff in Hg as ([k ms] & <- & Hg). simpl.
  destruct (GroupMore.groupby_keys _ _ _ Hg) as (o & Ho & Hk).
  exists o. split; [|exact Hk].
  apply (Permutation_in _ (GroupFacts.sort_asc_perm ko_duration (km_dropna df))). exact Ho.
Qed.

(** X7.  When every duration lies beyond the horizon the risk is 0. *)
Theorem km_risk_zero_before_first_time (df : list km_row) (horizon_days : Q) :
  km_regular df ->
  (forall o, In o (km_dropna df) -> horizon_days < ko_duration o) ->
  exists r, weighted_km_risk_at df horizon_days = Fin r /\ r == 0.
Proof.
  intros H Hall. rewrite (km_result horizon_days H). eexists. split; [reflexivity|].
  rewrite km_loop_beyond; [ring|].
  apply Forall_forall. intros g Hg.
  destruct (km_table_times df g Hg) as (o & Ho & ->). apply Hall, Ho.
Qed.

Lemma km_risk_zero_before_first_time_witness :
  exists r,
    weighted_km_risk_at
      [ {| k_duration := Some 3; k_event := Some 1%Z; k_weight := Some 2 |};
        {| k_duration := Some 1; k_event := Some 1%Z; k_weight := Some 1 |} ] (1 # 2) = Fin r
    /\ r == 0.
Proof.
  apply km_risk_zero_before_first_time.
  - split; [discriminate | vm_compute; reflexivity].
  - intros o [<-|[<-|[]]]; vm_compute; reflexivity.
Defined.

End KMMore.

(** ** Weighted Cox fit *)

Module CoxMore.
Import Effects Cox.

Lemma binary_forallb df :
  cox_binary df -> forallb (fun o => is_binary (o_x o)) (cox_dropna df) = true.
Proof.
  intros H. apply forallb_forall. intros o Ho. unfold is_binary.
  destruct (H o Ho) as [-> | ->]; reflexivity.
Qed.

(** X8.  On a frame with 0/1 treatment in which no row left by [dropna] has
    event 1, [fit_weighted_cox] raises the "No events present" error. *)
Theorem fit_weighted_cox_without_events (M : libm) (treatment_indicator_col : string)
    (df : list cox_row) :
  cox_binary df ->
  (forall o, In o (cox_dropna df) -> o_event o <> 1%Z) ->
  fit_weighted_cox M treatment_indicator_col df
  = inl (ValueError "No events present for Cox fit.").
Proof.
  intros Hb Hno. unfold fit_weighted_cox.
  rewrite (binary_forallb Hb). cbn [negb].
  pose proof (no_event_rows_no_event_times df Hno) as He.
  unfold cox_events_left in He. rewrite He. reflexivity.
Qed.

Lemma fit_weighted_cox_without_events_witness :
  fit_weighted_cox Approx.approx_libm "treatment_treated"
    [ {| c_duration := Some 2; c_event := Some 0%Z; c_weight := Some 1; c_treat := Some 1%Z |};
      {| c_duration := None; c_event := Some 1%Z; c_weight := Some 1; c_treat := Some 0%Z |};
      {| c_duration := Some 3; c_event := Some 0%Z; c_weight := Some 1; c_treat := Some 0%Z |} ]
  = inl (ValueError "No events present for Cox fit.").
Proof.
  apply fit_weighted_cox_without_events.
  - intros o [<-|[<-|[]]]; [right | left]; reflexivity.
  - intros o [<-|[<-|[]]]; discriminate.
Defined.



(** Every row of a frame is a member of one of its groups. *)
Lemma group_insert_covers (A : Type) (key : A -> Q) (x : A) (gs : list (Q * list A)) :
  (exists g, In g (group_insert key x gs) /\ In x (snd g))
  /\ (forall g0 m, In g0 gs -> In m (snd g0) ->
        exists g, In g (group_insert key x gs) /\ In m (snd g)).
Proof.
  induction gs as [|[k ms] gs [IH1 IH2]]; cbn [group_insert].
  - split; [exists (key x, [x]); split; left; reflexivity | intros g0 m []].
  - destruct (Qle_bool (key x) k); [destruct (Qeq_bool (key x) k)|].
    + split; [exists (key x, x :: ms); split; left; reflexivity|].
      intros g0 m [<-|Hg] Hm.
      * exists (key x, x :: ms). split; [left; reflexivity | right; exact Hm].
      * exists g0. split; [right; exact Hg | exact Hm].
    + split; [exists (key x, [x]); split; left; reflexivity|].
      intros g0 m Hg Hm. exists g0. split; [right; exact Hg | exact Hm].
    + split.
      * destruct IH1 as (g & Hg & Hx). exists g. split; [right; exact Hg | exact Hx].
      * intros g0 m [<-|Hg] Hm.
        -- exists (k, ms). split; [left; reflexivity | exact Hm].
        -- destruct (IH2 g0 m Hg Hm) as (g & Hg' & Hm').
           exists g. split; [right; exact Hg' | exact Hm'].
Qed.

Lemma groupby_covers (A : Type) (key : A -> Q) (l : list A) (x : A) :
  In x l -> exists g, In g (groupby key l) /\ In x (snd g).
Proof.
  rewrite GroupFacts.groupby_insert. induction l as [|y l IH]; [intros []|].
  cbn [fold_right]. intros [->|Hx].
  - apply (group_insert_covers key x).
  - destruct (IH Hx) as (g0 & Hg0 & Hm).
    exact (proj2 (group_insert_covers key y _) g0 x Hg0 Hm).
Qed.







Lemma indic_le_one b : indic b <= 1.
Proof. destruct b; cbn; lra. Qed.





End CoxMore.
(** ** Aalen-Johansen cumulative incidence *)

Module AJMore.
Import Effects AJFacts AJClaims.









End AJMore.
(** ** Percentile intervals *)

Module QuantileFacts.

Local Abbreviation srt := (sort_asc (fun x : Q => x)).




Section Interp.
Variable s : list Q.
Hypothesis Hs : ascending (fun x : Q => x) s.
Hypothesis Hne : (0 < List.length s)%nat.


End Interp.





End QuantileFacts.
(** ** Competing-risk summary *)

Module CompetingRiskMore.
Import Effects BinaryRisk AJFacts AJClaims BootstrapFacts QuantileFacts.









(** The ratio of the two cumulative incidences never raises. *)
Lemma cif_ratio cif1 cif0 :
  exists r, (if fgtb cif0 zero then pydiv cif1 cif0 else ret PInf) = inr r
            /\ (fgtb cif0 zero = false -> r = PInf).
Proof.
  destruct (fgtb cif0 zero) eqn:E.
  - rewrite (pydiv_ok _ _ (fgtb_nonzero _ E)). eexists. split; [reflexivity | discriminate].
  - eexists. split; reflexivity.
Qed.

Section Call.
Variable B : bitgen.
Variable df : list cr_row.
Variable horizon_days : Q.

Local Abbreviation work := (cr_dropna df).
Local Abbreviation subjects := (map (cr_resolved horizon_days) work).
Local Abbreviation mask1 := (map (fun o => Z.eqb (co_t o) 1) work).
Local Abbreviation mask0 := (map (fun o => Z.eqb (co_t o) 0) work).
Local Abbreviation cif1 := (_weighted_aj_cif_at (select mask1 subjects) horizon_days).
Local Abbreviation cif0 := (_weighted_aj_cif_at (select mask0 subjects) horizon_days).


End Call.













End CompetingRiskMore.
(** ** Random-effects pooling *)

Module MetaMore.
Import Effects Meta MetaClaims.

Lemma fgtb_zero_positive x : fgtb x zero = true -> positive_or_inf x.
Proof.
  destruct x as [q| | |]; cbn; try discriminate.
  - intros H. right. exists q. split; [reflexivity|]. unfold fgtb, fltb in H.
    apply Qltb_lt in H. exact H.
  - intros _. left. reflexivity.
Qed.

Lemma meta_returns (M : libm) ratios los his :
  (2 <= List.length (filter valid_study (zip3 ratios los his)))%nat ->
  exists res, random_effects_meta_ratio M ratios los his = Some res.
Proof.
  intros H. unfold random_effects_meta_ratio.
  destruct (Nat.ltb _ 2) eqn:E; [apply Nat.ltb_lt in E; lia|].
  eexists. reflexivity.
Qed.

(** X15.  The between-study variance [tau2] of a pooled result is a
    non-negative number or +inf: it is never negative and never NaN, also when
    Q or C is NaN. *)
Theorem tau2_never_negative (M : libm) (ratios ratio_los ratio_his : list float)
    (res : MetaResult) :
  random_effects_meta_ratio M ratios ratio_los ratio_his = Some res ->
  nonneg_or_inf (tau2 res).
Proof.
  unfold random_effects_meta_ratio.
  destruct (Nat.ltb _ 2); [discriminate|].
  intros H. inversion H; subst; clear H. cbn [tau2].
  match goal with |- nonneg_or_inf (if ?c then _ else _) => destruct c end;
    [|right; exists 0; split; [reflexivity | lra]].
  unfold pymax.
  match goal with |- nonneg_or_inf (if fgtb ?x zero then _ else _) =>
    destruct (fgtb x zero) eqn:E; [apply fgtb_zero_positive in E|] end.
  - destruct E as [-> | (q & -> & Hq)]; [left; reflexivity|].
    right. exists q. split; [reflexivity | lra].
  - right. exists 0. split; [reflexivity | lra].
Qed.

Lemma tau2_never_negative_witness :
  let ratios := [Fin (12 # 10); Fin (11 # 10)] in
  let los := [Fin 1; Fin (9 # 10)] in
  let his := [Fin (144 # 100); Fin (13 # 10)] in
  exists res,
    random_effects_meta_ratio Approx.approx_libm ratios los his = Some res
    /\ nonneg_or_inf (tau2 res).
Proof.
  intros ratios los his.
  destruct (@meta_returns Approx.approx_libm ratios los his) as (res & E).
  { vm_compute. lia. }
  exists res. split; [exact E|].
  exact (@tau2_never_negative Approx.approx_libm ratios los his res E).
Defined.

(** Sums with an infinite term. *)
Lemma npsum_positive_or_inf (l : list float) :
  (forall x, In x l -> positive_or_inf x) ->
  nonneg_or_inf (npsum l) /\ (In PInf l -> npsum l = PInf).
Proof.
  induction l as [|x l IH]; intros H.
  - split; [right; exists 0; split; [reflexivity | lra] | intros []].
  - destruct IH as [IH1 IH2]; [intros y Hy; apply H; right; exact Hy|].
    change (npsum (x :: l)) with (fadd x (npsum l)).
    destruct (H x (or_introl eq_refl)) as [-> | (q & -> & Hq)].
    + destruct IH1 as [-> | (s & -> & Hs)]; split; try (left; reflexivity); reflexivity.
    + destruct IH1 as [E | (s & E & Hs)].
      * rewrite E. split; [left; reflexivity | reflexivity].
      * rewrite E. split.
        -- right. exists (q + s). split; [reflexivity | lra].
        -- intros [Hx|Hin]; [discriminate|]. rewrite (IH2 Hin) in E. discriminate.
Qed.

Lemma npsum_not_finite (l : list float) :
  (exists x, In x l /\ isfinite x = false) -> isfinite (npsum l) = false.
Proof.
  induction l as [|x l IH]; intros (y & Hy & Hf); [contradiction|].
  change (npsum (x :: l)) with (fadd x (npsum l)).
  destruct Hy as [->|Hy].
  - destruct y as [q| | |]; [discriminate| | |]; destruct (npsum l); reflexivity.
  - assert (Hl : isfinite (npsum l) = false) by (apply IH; exists y; split; assumption).
    destruct (npsum l) as [q| | |]; [discriminate| | |]; destruct x; reflexivity.
Qed.

Lemma not_finite_over_inf x : isfinite x = false -> npdiv x PInf = NaN.
Proof. destruct x; [discriminate| | |]; reflexivity. Qed.

Lemma Qplus_zero_same (v : Q) : v + 0 = v.
Proof.
  destruct v as [a b]. unfold Qplus. cbn [Qnum Qden].
  rewrite Pos.mul_1_r. f_equal. lia.
Qed.

(** The weight [1 / (v + t)] of a study with variance [v >= 0], for [t = 0]. *)
Lemma weight_class (v : Q) :
  0 <= v ->
  positive_or_inf (npdiv one (Fin v))
  /\ (v == 0 -> npdiv one (Fin v) = PInf)
  /\ npdiv one (fadd (Fin v) zero) = npdiv one (Fin v).
Proof.
  intros Hv. unfold one, zero. cbn [npdiv fadd]. rewrite Qplus_zero_same.
  destruct (Qeq_bool v 0) eqn:E.
  - cbn. split; [left; reflexivity|]. split; reflexivity.
  - assert (Hne : ~ v == 0) by (apply Qeq_bool_neq; exact E).
    split; [|split].
    + right. eexists. split; [reflexivity|]. apply Qlt_shift_div_l; lra.
    + intros H. contradiction.
    + reflexivity.
Qed.

Lemma times_not_finite (wi yi : list float) :
  List.length wi = List.length yi -> In PInf wi ->
  (forall y, In y yi -> exists q, y = Fin q) ->
  exists x, In x (Balance.times wi yi) /\ isfinite x = false.
Proof.
  revert yi. induction wi as [|w wi IH]; intros [|y yi] Hlen Hin Hy;
    try contradiction; try discriminate.
  unfold Balance.times. cbn [combine map fst snd]. destruct Hin as [->|Hin].
  - destruct (Hy y (or_introl eq_refl)) as (q & ->).
    exists (fmul PInf (Fin q)). split; [left; reflexivity|].
    cbn [fmul]. unfold inf_of_sign. destruct (Qltb 0 q); [reflexivity|].
    destruct (Qltb q 0); reflexivity.
  - destruct (IH yi) as (x & Hx & Hf); [cbn in Hlen; lia | exact Hin | |].
    + intros y' Hy'. apply Hy. right. exact Hy'.
    + exists x. split; [right; exact Hx | exact Hf].
Qed.

(** The variances of the kept studies. *)
Lemma kept_variances (M : libm) (kept : list (float * float * float)) :
  log_finite M ->
  (forall s, In s kept -> valid_study s = true) ->
  let vi := map (fun s => fmul s s)
              (map (fun '(r, lo, hi) => _log_se_from_ci M r lo hi) kept) in
  (forall v, In v vi -> exists q, v = Fin q /\ 0 <= q)
  /\ (forall r b, In (Fin r, Fin b, Fin b) kept -> exists z, In (Fin z) vi /\ z == 0)
  /\ (forall y, In y (map (fun '(r, _, _) => np_log M r) kept) -> exists q, y = Fin q).
Proof.
  intros HM Hv vi.
  assert (Hse : forall r lo hi, In (r, lo, hi) kept ->
            exists qr ql qh lr ll lh,
              r = Fin qr /\ lo = Fin ql /\ hi = Fin qh
              /\ np_log M r = Fin lr /\ np_log M lo = Fin ll /\ np_log M hi = Fin lh
              /\ _log_se_from_ci M r lo hi = Fin ((lh - ll) / (2 * (196 # 100)))).
  { intros r lo hi Hin. specialize (Hv _ Hin). apply valid_study_spec in Hv.
    destruct Hv as ((qr & -> & Hr) & (ql & -> & Hl) & (qh & -> & Hh)).
    destruct (HM qr Hr) as (lr & Er). destruct (HM ql Hl) as (ll & El).
    destruct (HM qh Hh) as (lh & Eh).
    exists qr, ql, qh, lr, ll, lh. repeat split; try assumption.
    unfold _log_se_from_ci. rewrite El, Eh. reflexivity. }
  split; [|split].
  - intros v Hin. unfold vi in Hin.
    apply in_map_iff in Hin as (s & <- & Hs).
    apply in_map_iff in Hs as ([[r lo] hi] & <- & Hk).
    destruct (Hse r lo hi Hk) as (qr & ql & qh & lr & ll & lh & _ & _ & _ & _ & _ & _ & E).
    rewrite E. eexists. split; [reflexivity|]. apply Qsq_nonneg.
  - intros r b Hk.
    destruct (Hse _ _ _ Hk) as (qr & ql & qh & lr & ll & lh & _ & _ & _ & _ & El & Eh & E).
    rewrite El in Eh. inversion Eh; subst.
    exists ((lh - lh) / (2 * (196 # 100)) * ((lh - lh) / (2 * (196 # 100)))). split.
    + unfold vi. apply in_map_iff. exists (_log_se_from_ci M (Fin r) (Fin b) (Fin b)).
      split; [rewrite E; reflexivity|].
      apply in_map_iff. exists (Fin r, Fin b, Fin b). split; [reflexivity | exact Hk].
    + field.
  - intros y Hin. apply in_map_iff in Hin as ([[r lo] hi] & <- & Hk).
    destruct (Hse r lo hi Hk) as (qr & ql & qh & lr & ll & lh & _ & _ & _ & E & _).
    exists lr. exact E.
Qed.

Lemma some_same (A : Type) (a b : A) : Some a = Some b -> a = b.
Proof. congruence. Qed.

(** X16.  When one of the studies that enter the pooling has an interval of
    width zero (lower bound equal to upper bound), its weight is infinite and
    the pooled ratio and both of its bounds are [np.exp(nan)], whatever the
    other studies are; [tau2] is 0.0. *)
Theorem zero_width_interval_gives_nan (M : libm) (ratios ratio_los ratio_his : list float)
    (res : MetaResult) :
  log_finite M ->
  zero_width_study ratios ratio_los ratio_his ->
  random_effects_meta_ratio M ratios ratio_los ratio_his = Some res ->
  ratio res = np_exp M NaN /\ ratio_lo res = np_exp M NaN
  /\ ratio_hi res = np_exp M NaN /\ tau2 res = zero.
Proof.
  intros HM (r & b & Hin & Hr & Hb).
  unfold random_effects_meta_ratio.
  set (kept := filter valid_study (zip3 ratios ratio_los ratio_his)).
  destruct (Nat.ltb _ 2); [discriminate|].
  assert (Hk : In (Fin r, Fin b, Fin b) kept).
  { apply filter_In. split; [exact Hin|]. apply valid_study_spec.
    repeat split; eexists; (split; [reflexivity | assumption]). }
  assert (Hvalid : forall s, In s kept -> valid_study s = true).
  { intros s Hs. apply filter_In in Hs. tauto. }
  destruct (@kept_variances M kept HM Hvalid) as (Hv & Hz & Hy).
  destruct (Hz r b Hk) as (z & Hzin & Hz0). clear Hz.
  set (yi := map (fun '(r, _, _) => np_log M r) kept) in *.
  set (vi := map (fun s => fmul s s)
               (map (fun '(r, lo, hi) => _log_se_from_ci M r lo hi) kept)) in *.
  set (wi := map (fun v => npdiv one v) vi).
  assert (Hwi : forall x, In x wi -> positive_or_inf x).
  { intros x Hx. apply in_map_iff in Hx as (v & <- & Hvin).
    destruct (Hv v Hvin) as (q & -> & Hq). apply weight_class, Hq. }
  assert (Hinf : In PInf wi).
  { apply in_map_iff. exists (Fin z). split; [|exact Hzin].
    apply weight_class; [rewrite Hz0; lra | exact Hz0]. }
  assert (Hsum : npsum wi = PInf) by (apply npsum_positive_or_inf; assumption).
  assert (Hsq : npsum (map (fun w => fmul w w) wi) = PInf).
  { apply npsum_positive_or_inf.
    - intros x Hx. apply in_map_iff in Hx as (w & <- & Hw).
      destruct (Hwi w Hw) as [-> | (q & -> & Hq)]; [left; reflexivity|].
      right. eexists. split; [reflexivity|]. nra.
    - apply in_map_iff. exists PInf. split; [reflexivity | exact Hinf]. }
  assert (Hstar : map (fun v => npdiv one (fadd v zero)) vi = wi).
  { apply map_ext_in. intros v Hvin. destruct (Hv v Hvin) as (q & -> & Hq).
    apply weight_class, Hq. }
  assert (Hnum : npdiv (npsum (Balance.times wi yi)) PInf = NaN).
  { apply not_finite_over_inf, npsum_not_finite, times_not_finite.
    - unfold wi, vi, yi. rewrite !length_map. reflexivity.
    - exact Hinf.
    - exact Hy. }
  intros H. apply some_same in H. subst res. cbn [ratio ratio_lo ratio_hi tau2].
  fold yi. fold vi. fold wi. rewrite !Hsum, !Hsq.
  change (fgtb (fsub PInf (npdiv PInf PInf)) zero) with false. cbv iota.
  rewrite !Hstar, !Hsum, !Hnum.
  repeat split; reflexivity.
Qed.

Lemma approx_log_finite : log_finite Approx.approx_libm.
Proof.
  intros q Hq. cbn [np_log Approx.approx_libm]. unfold Approx.log_approx.
  assert (E1 : Qltb q 0 = false) by (apply Qltb_ge; lra).
  assert (E2 : Qeq_bool q 0 = false) by (apply Qeq_bool_false; lra).
  rewrite E1, E2. eexists. reflexivity.
Qed.

Lemma zero_width_interval_gives_nan_witness :
  let ratios := [Fin (12 # 10); Fin (11 # 10)] in
  let los := [Fin 1; Fin (11 # 10)] in
  let his := [Fin (144 # 100); Fin (11 # 10)] in
  exists res,
    random_effects_meta_ratio Approx.approx_libm ratios los his = Some res
    /\ ratio res = NaN /\ ratio_lo res = NaN /\ ratio_hi res = NaN /\ tau2 res = zero.
Proof.
  intros ratios los his.
  destruct (@meta_returns Approx.approx_libm ratios los his) as (res & E).
  { vm_compute. lia. }
  exists res. split; [exact E|].
  apply (@zero_width_interval_gives_nan Approx.approx_libm ratios los his res).
  - exact approx_log_finite.
  - exists (11 # 10), (11 # 10). split; [right; left; reflexivity|]. split; reflexivity.
  - exact E.
Defined.

End MetaMore.
(** ** Standardized mean differences *)

Module BalanceMore.
Import Effects Balance.

Lemma select_none (A : Type) (mask : list bool) (a : list A) :
  (forall b, In b mask -> b = false) -> select mask a = [].
Proof.
  unfold select. revert a. induction mask as [|b mask IH]; intros a H; [reflexivity|].
  destruct a as [|y a]; [reflexivity|]. cbn [combine filter fst].
  rewrite (H b (or_introl eq_refl)). apply IH. intros b' Hb'. apply H. right. exact Hb'.
Qed.

Lemma empty_arm_mask (a : Z) (t : list Z) :
  empty_arm a t -> forall b, In b (map (fun ti => Z.eqb ti a) t) -> b = false.
Proof.
  intros H b Hb. apply in_map_iff in Hb as (ti & <- & Hti).
  apply Z.eqb_neq. exact (H ti Hti).
Qed.

(** The moments of an arm without subjects are NaN. *)
Lemma empty_moments :
  np_mean [] = NaN /\ np_var [] = NaN
  /\ _weighted_mean [] [] = NaN /\ _weighted_var [] [] = NaN.
Proof. repeat split; reflexivity. Qed.

(** X17.  When one of the two arms has no subject,
    [standardized_mean_difference] returns NaN, unweighted and weighted: the
    mean and the variance of the empty arm are NaN, and the guard
    [pooled == 0] does not catch a NaN pooled deviation. *)
Theorem smd_nan_when_arm_empty (M : libm) (x : list float) (t : list Z)
    (w : option (list float)) :
  sqrt_of_nan M ->
  empty_arm 1 t \/ empty_arm 0 t ->
  standardized_mean_difference M x t w = NaN.
Proof.
  intros HM H. unfold standardized_mean_difference, pooled_sd, arm_moments.
  destruct H as [H|H].
  - pose proof (empty_arm_mask H) as Hm.
    rewrite (@select_none _ _ x Hm).
    destruct w as [w|].
    + rewrite (@select_none _ _ w Hm).
      change (_weighted_mean [] []) with NaN. change (_weighted_var [] []) with NaN.
      cbn [fadd npdiv]. rewrite HM. reflexivity.
    + change (np_mean []) with NaN. change (np_var []) with NaN.
      cbn [fadd npdiv]. rewrite HM. reflexivity.
  - pose proof (empty_arm_mask H) as Hm.
    rewrite (@select_none _ _ x Hm).
    destruct w as [w|].
    + rewrite (@select_none _ _ w Hm).
      change (_weighted_mean [] []) with NaN. change (_weighted_var [] []) with NaN.
      match goal with |- context [fadd ?v NaN] =>
        replace (fadd v NaN) with NaN by (destruct v; reflexivity) end.
      cbn [npdiv]. rewrite HM. cbn [feqb].
      match goal with |- npdiv ?a NaN = NaN => destruct a; reflexivity end.
    + change (np_mean []) with NaN. change (np_var []) with NaN.
      match goal with |- context [fadd ?v NaN] =>
        replace (fadd v NaN) with NaN by (destruct v; reflexivity) end.
      cbn [npdiv]. rewrite HM. cbn [feqb].
      match goal with |- npdiv ?a NaN = NaN => destruct a; reflexivity end.
Qed.

Lemma smd_nan_when_arm_empty_witness :
  standardized_mean_difference Approx.approx_libm [Fin 3; Fin 5; Fin 4] [1; 1; 1]%Z None = NaN
  /\ standardized_mean_difference Approx.approx_libm [Fin 3; Fin 5; Fin 4] [0; 0; 0]%Z
       (Some [Fin 1; Fin 2; Fin 1]) = NaN.
Proof.
  split.
  - apply smd_nan_when_arm_empty; [reflexivity|].
    right. intros ti [<-|[<-|[<-|[]]]]; discriminate.
  - apply smd_nan_when_arm_empty; [reflexivity|].
    left. intros ti [<-|[<-|[<-|[]]]]; discriminate.
Defined.

Lemma Qplus_comm_same (a b : Q) : a + b = b + a.
Proof.
  destruct a as [n1 d1], b as [n2 d2]. unfold Qplus. cbn [Qnum Qden].
  rewrite (Pos.mul_comm d1 d2). f_equal. lia.
Qed.

Lemma fadd_comm (a b : float) : fadd a b = fadd b a.
Proof.
  destruct a as [p| | |], b as [q| | |]; try reflexivity.
  cbn [fadd]. rewrite Qplus_comm_same. reflexivity.
Qed.

Lemma swapped_masks (t : list Z) :
  map (fun ti => Z.eqb ti 1) (swap_arms t) = map (fun ti => Z.eqb ti 0) t
  /\ map (fun ti => Z.eqb ti 0) (swap_arms t) = map (fun ti => Z.eqb ti 1) t.
Proof.
  unfold swap_arms. rewrite !map_map. split; apply map_ext; intros ti.
  - destruct (Z.eqb_spec (1 - ti) 1), (Z.eqb_spec ti 0); try reflexivity; lia.
  - destruct (Z.eqb_spec (1 - ti) 0), (Z.eqb_spec ti 1); try reflexivity; lia.
Qed.

Lemma arm_moments_swapped (x : list float) (t : list Z) (w : option (list float)) :
  arm_moments x (swap_arms t) w
  = let '(m1, m0, v1, v0) := arm_moments x t w in (m0, m1, v0, v1).
Proof.
  unfold arm_moments. destruct (swapped_masks t) as [-> ->].
  destruct w; reflexivity.
Qed.

Lemma quotient_of_swapped_difference (a b p : float) :
  same (npdiv (fsub b a) p) (fopp (npdiv (fsub a b) p)).
Proof.
  destruct a as [a| | |], b as [b| | |], p as [p| | |];
    unfold fsub; cbn [fopp fadd npdiv same]; try exact I; try reflexivity;
    try (destruct (Qltb p 0); exact I).
  - destruct (Qeq_bool p 0) eqn:Ep.
    + unfold inf_of_sign.
      destruct (Qltb 0 (b + - a)) eqn:E1, (Qltb 0 (a + - b)) eqn:E2,
               (Qltb (b + - a) 0) eqn:E3, (Qltb (a + - b) 0) eqn:E4;
        qtest; cbn [fopp same]; try exact I; lra.
    + qtest. cbn [fopp same]. field. exact Ep.
Qed.

(** X18.  Exchanging the two arms (treatment indicator [1 - t]) changes the
    sign of the standardized mean difference and nothing else. *)
Theorem smd_antisymmetric (M : libm) (x : list float) (t : list Z)
    (w : option (list float)) :
  same (standardized_mean_difference M x (swap_arms t) w)
       (fopp (standardized_mean_difference M x t w)).
Proof.
  unfold standardized_mean_difference, pooled_sd.
  rewrite arm_moments_swapped.
  destruct (arm_moments x t w) as [[[m1 m0] v1] v0].
  rewrite (fadd_comm v0 v1).
  destruct (feqb (np_sqrt M (npdiv (fadd v1 v0) c_2)) zero).
  - cbn. lra.
  - apply quotient_of_swapped_difference.
Qed.

End BalanceMore.
(** ** The plotted Kaplan-Meier curve *)

Module CurveMore.
Import Effects Plots KMFacts.

Lemma last_same_default (l : list Q) (d d' : Q) : d == d' -> last l d == last l d'.
Proof.
  intros H. destruct l as [|x l]; [exact H|].
  rewrite !last_cons. reflexivity.
Qed.

(** The loop of the curve and the loop of the risk walk the same table. *)
Lemma curve_loop_risk (h : Q) (g : list km_group) :
  strictly_ascending kg_time g ->
  forall s risk,
    last (map cv_cuminc (curve_until h (curve_loop g s risk))) (1 - s)
    = 1 - km_loop h g s risk.
Proof.
  unfold strictly_ascending, curve_until.
  induction 1 as [|row rest Hs IH Hrow]; intros s risk; [reflexivity|].
  cbn [curve_loop km_loop filter cv_time].
  destruct (Qltb h (kg_time row)) eqn:E.
  - assert (E' : Qle_bool (kg_time row) h = false).
    { unfold Qltb in E. apply negb_true_iff in E. exact E. }
    rewrite E'.
    assert (Hnone : filter (fun r => Qle_bool (cv_time r) h)
                      (curve_loop rest (km_update s risk (kg_w_event row))
                                  (risk - kg_w_total row)) = []).
    { generalize (km_update s risk (kg_w_event row)) (risk - kg_w_total row).
      clear IH. induction rest as [|r2 rest IH2]; intros s2 risk2; [reflexivity|].
      cbn [curve_loop filter cv_time].
      inversion Hs as [|? ? Hs' Hr2]; subst.
      inversion Hrow as [|? ? Hlt Hrow']; subst.
      assert (E2 : Qle_bool (kg_time r2) h = false).
      { apply Qle_bool_gt. apply Qltb_lt in E. lra. }
      rewrite E2. apply IH2; assumption. }
    rewrite Hnone. reflexivity.
  - assert (E' : Qle_bool (kg_time row) h = true).
    { unfold Qltb in E. apply negb_false_iff in E. exact E. }
    rewrite E'. cbn [map cv_cuminc]. rewrite last_cons. apply IH.
Qed.

Lemma curve_loop_times (g : list km_group) (s risk : Q) :
  map cv_time (curve_loop g s risk) = map kg_time g.
Proof.
  revert s risk. induction g as [|row rest IH]; intros s risk; [reflexivity|].
  cbn [curve_loop map cv_time]. rewrite IH. reflexivity.
Qed.

Lemma Qmax_nonneg_same (t : Q) : 0 <= t -> Qmax t 0 = t.
Proof.
  intros H. unfold Qmax, GenericMinMax.gmax.
  destruct (t ?= 0) eqn:E; try reflexivity.
  apply Qlt_alt in E. lra.
Qed.

Lemma frame_of_subjects (obs : list km_obs) : km_dropna (as_frame obs) = obs.
Proof.
  unfold km_dropna, as_frame. induction obs as [|[t e w] obs IH]; [reflexivity|].
  cbn [map flat_map k_duration k_event k_weight ko_duration ko_event ko_weight app].
  rewrite IH. reflexivity.
Qed.

Lemma arrays_of_subjects (obs : list km_obs) :
  (forall o, In o obs -> 0 <= ko_duration o) -> curve_mask (as_arrays obs) = obs.
Proof.
  unfold curve_mask, as_arrays. induction obs as [|[t e w] obs IH]; intros H; [reflexivity|].
  cbn [map flat_map ci_duration ci_event ci_weight ko_duration ko_event ko_weight app].
  rewrite IH by (intros o Ho; apply H; right; exact Ho).
  pose proof (H _ (or_introl eq_refl)) as Ht0. cbn [ko_duration] in Ht0.
  rewrite (Qmax_nonneg_same Ht0). reflexivity.
Qed.

(** X19.  For subjects with non-negative durations and positive total
    weight, the curve that [plot_km_curves] draws up to the horizon
    ([weighted_km_curve] cut at [time <= horizon_days]) ends at the risk that
    [weighted_km_risk_at] reports for that horizon. *)
Theorem km_curve_ends_at_reported_risk (obs : list km_obs) (horizon_days : Q) :
  (forall o, In o obs -> 0 <= ko_duration o) ->
  0 < Qsum (map ko_weight obs) ->
  exists r,
    weighted_km_risk_at (as_frame obs) horizon_days = Fin r
    /\ r == curve_end (curve_until horizon_days (weighted_km_curve (as_arrays obs))).
Proof.
  intros Ht Hw.
  unfold weighted_km_risk_at, weighted_km_curve.
  rewrite frame_of_subjects, (@arrays_of_subjects obs Ht).
  destruct obs as [|o obs]; [cbn in Hw; lra|].
  set (work := sort_asc ko_duration (o :: obs)).
  assert (HT : Qsum (map ko_weight work) == Qsum (map ko_weight (o :: obs))).
  { apply Qsum_perm, Permutation_map, GroupFacts.sort_asc_perm. }
  assert (E : Qle_bool (Qsum (map ko_weight work)) 0 = false).
  { apply Qle_bool_gt. rewrite HT. exact Hw. }
  rewrite E. eexists. split; [reflexivity|].
  unfold curve_end, curve_until. cbn [filter cv_time].
  pose proof (@curve_loop_risk horizon_days (km_grouped work) (km_grouped_strict work) 1
                (Qsum (map ko_weight work))) as Hl.
  unfold curve_until in Hl.
  destruct (Qle_bool 0 horizon_days) eqn:E0.
  - cbn [map cv_cuminc]. rewrite last_cons. rewrite <- Hl.
    apply last_same_default. reflexivity.
  - rewrite <- Hl. apply last_same_default. reflexivity.
Qed.

Lemma km_curve_ends_at_reported_risk_witness :
  let obs := [ {| ko_duration := 3; ko_event := 1; ko_weight := 2 |};
               {| ko_duration := 1; ko_event := 1; ko_weight := 1 |};
               {| ko_duration := 2; ko_event := 0; ko_weight := 1 |} ] in
  exists r,
    weighted_km_risk_at (as_frame obs) 2 = Fin r
    /\ r == curve_end (curve_until 2 (weighted_km_curve (as_arrays obs))).
Proof.
  intros obs. apply (@km_curve_ends_at_reported_risk obs 2).
  - intros o [<-|[<-|[<-|[]]]]; cbn; lra.
  - cbn. lra.
Defined.

Lemma curve_loop_values (g : list km_group) :
  forall s risk, 0 <= s <= 1 ->
    Forall (fun r => 0 <= cv_survival r <= 1 /\ cv_cuminc r == 1 - cv_survival r)
           (curve_loop g s risk)
    /\ non_increasing (s :: map cv_survival (curve_loop g s risk)).
Proof.
  induction g as [|row rest IH]; intros s risk Hs; cbn [curve_loop map cv_survival].
  - split; [constructor | exact I].
  - pose proof (@km_update_bounds s risk (kg_w_event row) ltac:(lra)) as Hb.
    destruct (IH (km_update s risk (kg_w_event row)) (risk - kg_w_total row) ltac:(lra))
      as [IH1 IH2].
    split.
    + constructor; [|exact IH1]. cbn [cv_survival cv_cuminc]. split; [lra | reflexivity].
    + split; [lra | exact IH2].
Qed.

Lemma curve_mask_nonneg (rows : list curve_in) (o : km_obs) :
  In o (curve_mask rows) -> 0 <= ko_duration o.
Proof.
  unfold curve_mask. intros Ho. apply in_flat_map in Ho as (r & _ & Ho).
  destruct (ci_duration r) as [t| | |]; try contradiction.
  destruct (ci_weight r) as [w| | |]; try contradiction.
  destruct Ho as [<-|[]]. cbn [ko_duration]. apply Q.le_max_r.
Qed.

(** X20.  Every curve that [weighted_km_curve] returns is a survival curve:
    each survival value lies in [0, 1] with [cuminc = 1 - survival], the
    survival values never increase, the times never decrease (strictly
    increasing after the initial row at time 0), and a curve that is not empty
    starts at time 0 with survival 1. *)
Theorem km_curve_is_a_survival_curve (rows : list curve_in) :
  let curve := weighted_km_curve rows in
  Forall (fun r => 0 <= cv_survival r <= 1 /\ cv_cuminc r == 1 - cv_survival r) curve
  /\ non_increasing (map cv_survival curve)
  /\ ascending cv_time curve
  /\ strictly_ascending cv_time (tl curve)
  /\ (curve = [] \/ exists r rest, curve = r :: rest /\ cv_time r = 0 /\ cv_survival r = 1).
Proof.
  cbv zeta. unfold weighted_km_curve.
  pose proof (@curve_mask_nonneg rows) as Hnn.
  destruct (curve_mask rows) as [|o obs].
  { split; [constructor|]. split; [exact I|]. split; [constructor|].
    split; [constructor|]. left. reflexivity. }
  set (work := sort_asc ko_duration (o :: obs)).
  destruct (Qle_bool (Qsum (map ko_weight work)) 0).
  { split; [constructor|]. split; [exact I|]. split; [constructor|].
    split; [constructor|]. left. reflexivity. }
  set (T := Qsum (map ko_weight work)).
  destruct (@curve_loop_values (km_grouped work) 1 T ltac:(lra)) as [Hv Hs].
  assert (Hst : strictly_ascending cv_time (curve_loop (km_grouped work) 1 T)).
  { apply (@strictly_ascending_keys _ _ cv_time kg_time _ (km_grouped work)).
    - apply curve_loop_times.
    - apply km_grouped_strict. }
  assert (Hge : Forall (fun r => 0 <= cv_time r) (curve_loop (km_grouped work) 1 T)).
  { apply Forall_forall. intros r Hr.
    assert (Hin : In (cv_time r) (map kg_time (km_grouped work))).
    { rewrite <- (curve_loop_times (km_grouped work) 1 T). apply in_map. exact Hr. }
    apply in_map_iff in Hin as (g & Eg & Hg). rewrite <- Eg.
    rewrite km_grouped_eq in Hg. apply in_map_iff in Hg as (gr & <- & Hgr).
    rewrite km_sum_group_time.
    destruct (GroupMore.groupby_keys _ _ _ Hgr) as (x & Hx & ->).
    apply Hnn.
    apply (Permutation_in _ (GroupFacts.sort_asc_perm ko_duration (o :: obs))). exact Hx. }
  split; [|split; [|split; [|split]]].
  - constructor; [cbn; split; [lra | reflexivity] | exact Hv].
  - exact Hs.
  - unfold ascending. constructor.
    + apply strictly_ascending_ascending, Hst.
    + exact Hge.
  - exact Hst.
  - right. eexists _, _. split; [reflexivity|]. split; reflexivity.
Qed.

End CurveMore.
(** ** The two other effective sample sizes *)

Module EssMore.
Import Effects Board Study BinaryRisk KishFacts Kish QuantileFacts.
















End EssMore.
(** ** Events recorded after the horizon *)

Module LateEvents.
Import Effects Resolution AJFacts AJClaims AJMore CompetingRiskMore.







End LateEvents.
(** ** Kaplan-Meier and Aalen-Johansen on a single cause *)

Module SingleCause.
Import Effects KMFacts KMMore AJFacts AJClaims AJMore.

Section Regroup.
Variables A C : Type.
Variable ka : A -> Q.
Variable kc : C -> Q.
Variable f : A -> C.
Hypothesis Hkey : forall x, kc (f x) = ka x.

Local Abbreviation F := (fun g : Q * list A => (fst g, map f (snd g))).


End Regroup.















End SingleCause.
(** ** The interval of the risk difference *)

Module RiskDifference.
Import Effects BinaryRisk KishFacts Kish KishMore.







End RiskDifference.
(** ** The Kaplan-Meier curve of the publication board *)

Module BoardCurve.
Import Effects Plots Board KMFacts.

Lemma board_loop_points times g :
  forall s risk n,
    map (fun r => (br_time r, br_survival r)) (board_loop times g s risk n)
    = map (fun r => (cv_time r, cv_survival r)) (curve_loop g s risk).
Proof.
  induction g as [|row rest IH]; intros s risk n; [reflexivity|].
  cbn [board_loop curve_loop map br_time br_survival cv_time cv_survival].
  rewrite IH. reflexivity.
Qed.

Section Members.
Variable A : Type.
Variable key : A -> Q.

(** The members of a group have the key of the group. *)
Lemma group_insert_member_keys x gs :
  Forall (fun g => Forall (fun m => key m == fst g) (snd g)) gs ->
  Forall (fun g => Forall (fun m => key m == fst g) (snd g)) (group_insert key x gs).
Proof.
  induction gs as [|[k ms] gs IH]; intros H; cbn [group_insert].
  - constructor; [|constructor]. cbn. constructor; [reflexivity | constructor].
  - inversion H as [|? ? Hg Hgs]; subst. cbn [fst snd] in Hg.
    destruct (Qle_bool (key x) k); [destruct (Qeq_bool (key x) k) eqn:E|].
    + constructor; [|exact Hgs]. cbn [fst snd]. apply Qeq_bool_iff in E.
      constructor; [reflexivity|].
      eapply Forall_impl; [|exact Hg]. cbn. intros m Hm. rewrite Hm, E. reflexivity.
    + constructor; [|exact H]. cbn. constructor; [reflexivity | constructor].
    + constructor; [exact Hg | apply IH, Hgs].
Qed.

Lemma groupby_member_keys l :
  Forall (fun g => Forall (fun m => key m == fst g) (snd g)) (groupby key l).
Proof.
  rewrite GroupFacts.groupby_insert. induction l as [|x l IH]; cbn [fold_right].
  - constructor.
  - apply group_insert_member_keys, IH.
Qed.

(** Every row has the key of one of the groups. *)
Lemma groupby_key_of_row l x :
  In x l -> exists g, In g (groupby key l) /\ key x == fst g.
Proof.
  intros Hx. destruct (CoxMore.groupby_covers key l x Hx) as (g & Hg & Hm).
  exists g. split; [exact Hg|].
  pose proof (groupby_member_keys l) as H. rewrite Forall_forall in H.
  specialize (H g Hg). rewrite Forall_forall in H. exact (H x Hm).
Qed.
End Members.

(** Counting the times that are one of the keys [ks]. *)
Lemma count_split (times ks : list Q) (k : Q) :
  Forall (fun k' => k < k') ks ->
  Z.of_nat (List.length (filter (fun t => existsb (Qeq_bool t) (k :: ks)) times))
  = (n_at times k
     + Z.of_nat (List.length (filter (fun t => existsb (Qeq_bool t) ks) times)))%Z.
Proof.
  intros Hk. unfold n_at. induction times as [|t times IH]; [reflexivity|].
  cbn [filter].
  change (existsb (Qeq_bool t) (k :: ks)) with (Qeq_bool t k || existsb (Qeq_bool t) ks).
  destruct (Qeq_bool t k) eqn:E.
  - assert (Hno : existsb (Qeq_bool t) ks = false).
    { apply not_true_iff_false. intros Hex. apply existsb_exists in Hex as (k' & Hk' & E').
      rewrite Forall_forall in Hk. specialize (Hk k' Hk'). qtest. lra. }
    rewrite Hno. cbn [orb List.length]. lia.
  - cbn [orb]. destruct (existsb (Qeq_bool t) ks); cbn [List.length]; lia.
Qed.

(** A time that is one of the ascending keys is one of those from [k] on
    exactly when it is at least [k]. *)
Lemma from_key_on (pre ks : list Q) (k t : Q) :
  strictly_ascending (fun x : Q => x) (pre ++ k :: ks) ->
  existsb (Qeq_bool t) (pre ++ k :: ks) = true ->
  existsb (Qeq_bool t) (k :: ks) = Qle_bool k t.
Proof.
  unfold strictly_ascending. intros Hs Hin.
  assert (Hpre : Forall (fun p => p < k) pre).
  { clear Hin. induction pre as [|p pre IH]; [constructor|].
    cbn [app] in Hs. inversion Hs as [|? ? Hs' Hp]; subst.
    constructor; [|apply IH, Hs'].
    rewrite Forall_forall in Hp. apply Hp. apply in_or_app. right. left. reflexivity. }
  assert (Hks : Forall (fun k' => k < k') ks).
  { clear Hin Hpre. induction pre as [|p pre IH].
    - cbn [app] in Hs. inversion Hs; assumption.
    - cbn [app] in Hs. inversion Hs; subst. apply IH. assumption. }
  rewrite existsb_app in Hin. apply orb_true_iff in Hin as [Hin|Hin].
  - apply existsb_exists in Hin as (p & Hp & E). qtest.
    rewrite Forall_forall in Hpre. specialize (Hpre p Hp).
    assert (E1 : Qle_bool k t = false) by (apply Qle_bool_gt; lra).
    rewrite E1. apply not_true_iff_false. intros Hex.
    apply existsb_exists in Hex as (k' & [<-|Hk'] & E'); qtest; [lra|].
    rewrite Forall_forall in Hks. specialize (Hks k' Hk'). lra.
  - rewrite Hin. symmetry. apply Qle_bool_iff.
    apply existsb_exists in Hin as (k' & [<-|Hk'] & E'); qtest; [lra|].
    rewrite Forall_forall in Hks. specialize (Hks k' Hk'). lra.
Qed.

(** The counter of the loop is the number of subjects still at risk. *)
Lemma board_loop_counts (times : list Q) (g : list km_group) :
  forall pre s risk n,
    strictly_ascending (fun x : Q => x) (pre ++ map kg_time g) ->
    (forall t, In t times -> existsb (Qeq_bool t) (pre ++ map kg_time g) = true) ->
    n = Z.of_nat (List.length (filter (fun t => existsb (Qeq_bool t) (map kg_time g)) times)) ->
    Forall (fun r => br_n_risk r
                     = Z.of_nat (List.length (filter (fun t => Qle_bool (br_time r) t) times)))
           (board_loop times g s risk n).
Proof.
  induction g as [|row rest IH]; intros pre s risk n Hs Hall Hn; [constructor|].
  cbn [board_loop map] in *. constructor.
  - cbn [br_n_risk br_time]. rewrite Hn. f_equal. f_equal.
    apply filter_ext_in. intros t Ht.
    apply (@from_key_on pre (map kg_time rest) (kg_time row) t Hs (Hall t Ht)).
  - apply (IH (pre ++ [kg_time row])).
    + rewrite <- app_assoc. exact Hs.
    + intros t Ht. rewrite <- app_assoc. apply Hall, Ht.
    + rewrite Hn.
      assert (Hks : Forall (fun k' => kg_time row < k') (map kg_time rest)).
      { clear -Hs. unfold strictly_ascending in Hs.
        induction pre as [|p pre IHp]; cbn [app] in Hs; inversion Hs; subst; auto. }
      rewrite (count_split times Hks). lia.
Qed.


Lemma filter_length_perm (A : Type) (p : A -> bool) (l l' : list A) :
  Permutation l l' -> List.length (filter p l) = List.length (filter p l').
Proof.
  induction 1 as [|x l l' _ IH|x y l|l l' l'' _ IH1 _ IH2]; cbn [filter].
  - reflexivity.
  - destruct (p x); cbn [List.length]; rewrite IH; reflexivity.
  - destruct (p x), (p y); reflexivity.
  - rewrite IH1. exact IH2.
Qed.

Lemma filter_all (A : Type) (p : A -> bool) (l : list A) :
  (forall x, In x l -> p x = true) -> filter p l = l.
Proof.
  induction l as [|x l IH]; intros H; [reflexivity|]. cbn [filter].
  rewrite (H x (or_introl eq_refl)), IH; [reflexivity|].
  intros y Hy. apply H. right. exact Hy.
Qed.

Lemma filter_map_length (A C : Type) (f : A -> C) (p : C -> bool) (l : list A) :
  List.length (filter p (map f l)) = List.length (filter (fun x => p (f x)) l).
Proof.
  induction l as [|x l IH]; [reflexivity|]. cbn [map filter].
  destruct (p (f x)); cbn [List.length]; rewrite IH; reflexivity.
Qed.

(** X27.  The publication board's own copy of [weighted_km_curve] draws the
    same points (time, survival) as [plots.weighted_km_curve] whenever the
    latter returns a curve, and its column [n_risk] is, at every row, the
    number of subjects whose time is at least the time of the row. *)
Theorem board_curve_matches_plots_curve (rows : list curve_in) :
  (Plots.weighted_km_curve rows <> [] ->
   map (fun r => (br_time r, br_survival r)) (Board.weighted_km_curve rows)
   = map (fun r => (cv_time r, cv_survival r)) (Plots.weighted_km_curve rows))
  /\ Forall (fun r => br_n_risk r = at_risk_count rows (br_time r))
            (Board.weighted_km_curve rows).
Proof.
  unfold Board.weighted_km_curve, Plots.weighted_km_curve, at_risk_count.
  pose proof (@CurveMore.curve_mask_nonneg rows) as Hnn.
  destruct (curve_mask rows) as [|o obs]; [split; [intros H; contradiction | constructor]|].
  set (all := o :: obs) in *.
  set (work := sort_asc ko_duration all).
  pose proof (GroupFacts.sort_asc_perm ko_duration all) as Hperm. fold work in Hperm.
  split.
  - destruct (Qle_bool (Qsum (map ko_weight work)) 0); [intros H; contradiction|].
    intros _. cbn [map br_time br_survival cv_time cv_survival].
    rewrite board_loop_points. reflexivity.
  - assert (Hcount : forall t,
              List.length (filter (fun x => Qle_bool t x) (map ko_duration work))
              = List.length (filter (fun o => Qle_bool t (ko_duration o)) all)).
    { intros t. rewrite filter_map_length. apply filter_length_perm, Hperm. }
    assert (Hkeys : forall t, In t (map ko_duration work) ->
              existsb (Qeq_bool t) (map kg_time (km_grouped work)) = true).
    { intros t Ht. apply in_map_iff in Ht as (x & <- & Hx).
      destruct (@groupby_key_of_row _ ko_duration work x Hx) as (g & Hg & Ek).
      apply existsb_exists. exists (fst g). split.
      - rewrite km_grouped_eq, map_map. apply in_map_iff. exists g.
        split; [apply km_sum_group_time | exact Hg].
      - apply Qeq_bool_iff, Ek. }
    constructor.
    + cbn [br_n_risk br_time]. f_equal.
      rewrite (@filter_all _ (fun o => Qle_bool 0 (ko_duration o)) all).
      * apply Permutation_length, Hperm.
      * intros x Hx. apply Qle_bool_iff, Hnn, Hx.
    + assert (H := @board_loop_counts (map ko_duration work) (km_grouped work) [] 1
                     (Qsum (map ko_weight work)) (Z.of_nat (List.length work))).
      cbn [app] in H.
      eapply Forall_impl; [|apply H].
      * cbn. intros r Hr. rewrite Hr, Hcount. reflexivity.
      * apply (@strictly_ascending_map _ _ kg_time kg_time (fun x : Q => x));
          [reflexivity | apply km_grouped_strict].
      * exact Hkeys.
      * f_equal. rewrite (filter_all _ _ Hkeys), length_map. reflexivity.
Qed.

End BoardCurve.
(** ** Treatment encoding *)

Module EncodingMore.
Import Effects Preprocess CoxMore.

Lemma cox_newton_error (M : libm) ets n beta e :
  cox_newton M ets n beta = inl e -> e = ZeroDivisionError.
Proof.
  revert beta. induction n as [|n IH]; intros beta; cbn [cox_newton]; [discriminate|].
  unfold pydiv.
  destruct (feqb (fopp (cox_information (np_exp M beta) ets)) zero).
  - cbn [bind raise]. intros H. inversion H. reflexivity.
  - cbn [bind ret].
    destruct (fltb _ c_1e_10); [discriminate | apply IH].
Qed.

(** On a frame with 0/1 treatment the only ValueError is the one on events. *)
Lemma cox_binary_errors (M : libm) (col : string) (df : list cox_row) (msg : string) :
  cox_binary df ->
  fit_weighted_cox M col df = inl (ValueError msg) ->
  msg = "No events present for Cox fit."%string.
Proof.
  intros Hb. unfold fit_weighted_cox. rewrite (binary_forallb Hb). cbn [negb].
  destruct (cox_event_times _) as [|r ets]; [intros H; inversion H; reflexivity|].
  destruct (cox_newton M (r :: ets) 60 zero) as [e|beta] eqn:En.
  - apply cox_newton_error in En. subst e. cbn [bind]. discriminate.
  - cbn [bind]. destruct (fgtb _ zero).
    + unfold pydiv. destruct (feqb _ zero); cbn [bind raise ret]; discriminate.
    + cbn [bind ret]. discriminate.
Qed.

Lemma dropna_treatment (df : list cox_row) (t : list Z) (o : cox_obs) :
  treatment_column df t -> In o (cox_dropna df) -> In (o_x o) t.
Proof.
  unfold treatment_column, cox_dropna. intros Hcol Ho.
  apply in_flat_map in Ho as (r & Hr & Ho).
  assert (Hin : In (c_treat r) (map Some t)).
  { rewrite <- Hcol. apply in_map, Hr. }
  apply in_map_iff in Hin as (z & Ez & Hz).
  destruct (c_duration r); try contradiction. destruct (c_event r); try contradiction.
  destruct (c_weight r); try contradiction. rewrite <- Ez in Ho.
  destruct Ho as [<-|[]]. exact Hz.
Qed.

(** X28.  When [encode_treatment] returns, its vector has one entry per row,
    1 at the rows that carry the treated label and 0 elsewhere (all 1 when
    the two labels of the encoding coincide), and a frame whose treatment
    column is that vector passes the 0/1 guard of [fit_weighted_cox]: the only
    ValueError left is "No events present for Cox fit.".  It raises
    ValueError exactly when some label is neither of the two. *)
Theorem encoded_treatment_is_binary (render : list string -> string)
    (encoding : TreatmentEncoding) (treatment : list string) :
  (forall t, encode_treatment render encoding treatment = inr t ->
     List.length t = List.length treatment
     /\ (forall i s, nth_error treatment i = Some s ->
           nth_error t i = Some (if String.eqb s (treated_label encoding) then 1%Z else 0%Z))
     /\ (treated_label encoding = control_label encoding -> forall z, In z t -> z = 1%Z)
     /\ (forall M col df msg,
           treatment_column df t ->
           fit_weighted_cox M col df = inl (ValueError msg) ->
           msg = "No events present for Cox fit."%string))
  /\ ((exists s, In s treatment /\ expected encoding s = false)
      <-> exists msg, encode_treatment render encoding treatment = inl (ValueError msg)).
Proof.
  unfold encode_treatment. destruct (forallb (expected encoding) treatment) eqn:Eall; cbn [negb].
  - rewrite forallb_forall in Eall. split.
    + intros t Ht. inversion Ht; subst t. clear Ht.
      split; [apply length_map|]. split; [|split].
      * intros i s Hi. rewrite nth_error_map, Hi. reflexivity.
      * intros Hsame z Hz. apply in_map_iff in Hz as (s & <- & Hs).
        specialize (Eall s Hs). unfold expected in Eall. rewrite <- Hsame in Eall.
        rewrite orb_diag in Eall. rewrite Eall. reflexivity.
      * intros M col df msg Hcol. apply cox_binary_errors.
        intros o Ho. pose proof (@dropna_treatment df _ o Hcol Ho) as Hin.
        apply in_map_iff in Hin as (s & Es & _). rewrite <- Es.
        destruct (String.eqb s (treated_label encoding)); [right | left]; reflexivity.
    + split.
      * intros (s & Hs & Hbad). rewrite (Eall s Hs) in Hbad. discriminate.
      * intros (msg & H). discriminate.
  - split; [intros t Ht; discriminate|]. split.
    + intros _. eexists. reflexivity.
    + intros _. apply not_true_iff_false in Eall.
      destruct (existsb (fun s => negb (expected encoding s)) treatment) eqn:Eex.
      * apply existsb_exists in Eex as (s & Hs & Hneg). exists s.
        split; [exact Hs | apply negb_true_iff, Hneg].
      * exfalso. apply Eall, forallb_forall. intros s Hs.
        destruct (expected encoding s) eqn:Es; [reflexivity|].
        assert (Hex : existsb (fun s => negb (expected encoding s)) treatment = true).
        { apply existsb_exists. exists s. split; [exact Hs | rewrite Es; reflexivity]. }
        congruence.
Qed.

(** The default encoding on three rows. *)
Example encode_small :
  encode_treatment (fun bad => String.concat ", " bad)
    {| treated_label := "ppi"; control_label := "h2ra" |} ["ppi"; "h2ra"; "ppi"]%string
  = inr [1; 0; 1]%Z.
Proof. reflexivity. Qed.

End EncodingMore.
(** ** Competing events read as censorings *)

Module NaiveKM.
Import Effects KMFacts KMMore AJFacts AJClaims AJMore SingleCause.











End NaiveKM.
